(** * Betterbox: a shallow embedding of the server and client in Rocq

    The development follows the Go sources of the [betterbox] package
    (the server's [checkOrMakeEmptyDirectory], [NewServer],
    [validateRequest] and [ApplyRequest], the client's [sendRequests],
    [NewClient], [Sync], [startWatcher], [handleEvent], [watcherLoop] and
    [SyncAndMonitor]) and of the two command-line front ends.  Go values are modelled as follows:

    - [string] is Rocq's [string]; [[]byte] is [list Byte.byte];
    - an [error] is a value of the inductive type [error], whose [Error]
      function renders the message the way the Go value would;
    - the file system the server writes into is a finite map from resolved
      paths to nodes;
    - everything the client does to the outside world (reading files, the
      watcher, dialling the server, remote calls) goes through an abstract
      world with state-passing operations, and leaves a log of network
      events. *)

From Stdlib Require Import ZArith Ascii String Strings.Byte.
From stdpp Require Import gmap strings pretty list fin_maps.

Local Open Scope Z_scope.
Local Open Scope string_scope.
Local Open Scope list_scope.

(** ** Errors *)

(** The [syscall.Errno] values the modelled file system can produce. *)
Inductive Errno := EEXIST | ENOENT | ENOTDIR | EISDIR | EBUSY.

Definition Errno_Error (e : Errno) : string :=
  match e with
  | EEXIST => "file exists"
  | ENOENT => "no such file or directory"
  | ENOTDIR => "not a directory"
  | EISDIR => "is a directory"
  | EBUSY => "device or resource busy"
  end.

(** Go [error] values: [fmt.Errorf]/[errors.New] strings, [*os.PathError],
    and the wrapper built by [errors.Wrap] of github.com/pkg/errors. *)
Inductive error :=
| errorString (msg : string)
| PathError (op path : string) (err : Errno)
| withMessage (cause : error) (msg : string).

Fixpoint Error (e : error) : string :=
  match e with
  | errorString msg => msg
  | PathError op path err => op +:+ " " +:+ path +:+ ": " +:+ Errno_Error err
  | withMessage cause msg => msg +:+ ": " +:+ Error cause
  end.

(** [errors.Wrap(err, msg)]; the callers only wrap non-nil errors. *)
Definition Wrap (err : error) (msg : string) : error := withMessage err msg.

(** ** path/filepath (Unix) *)

Module filepath.

Definition Separator : ascii := "/"%char.

Definition IsPathSeparator (c : ascii) : bool := bool_decide (c = Separator).

(** [strings.Split(path, "/")]: the elements between separators, empty
    ones included. *)
Fixpoint elements (path : string) : list string :=
  match path with
  | EmptyString => [EmptyString]
  | String c rest =>
      if IsPathSeparator c then EmptyString :: elements rest
      else match elements rest with
           | e :: es => String c e :: es
           | [] => [String c EmptyString]
           end
  end.

(** [strings.Join(elems, "/")]. *)
Fixpoint join (elems : list string) : string :=
  match elems with
  | [] => ""
  | [e] => e
  | e :: es => e +:+ "/" +:+ join es
  end.

Definition rooted (path : string) : bool :=
  match path with
  | String c _ => IsPathSeparator c
  | EmptyString => false
  end.

(** One element of the path processed by [Clean]; [out] holds the elements
    written so far, last one first.  Empty and [.] elements are dropped; a
    [..] removes the element before it, is dropped at the root of a rooted
    path, and is kept when a relative path has nothing left to remove. *)
Definition clean_step (isRooted : bool) (out : list string) (elem : string)
  : list string :=
  if bool_decide (elem = "") then out
  else if bool_decide (elem = ".") then out
  else if bool_decide (elem = "..") then
    match out with
    | top :: below => if bool_decide (top = "..") then elem :: out else below
    | [] => if isRooted then [] else [elem]
    end
  else elem :: out.

(** [filepath.Clean]: the shortest path name equivalent to [path] by purely
    lexical processing. *)
Definition Clean (path : string) : string :=
  if bool_decide (path = "") then "."
  else
    let out := rev (fold_left (clean_step (rooted path)) (elements path) []) in
    if rooted path then "/" +:+ join out
    else match out with
         | [] => "."
         | _ => join out
         end.

(** [filepath.Join(a, b)]: the arguments from the first non-empty one on
    are joined with a separator and cleaned. *)
Definition Join (a b : string) : string :=
  if bool_decide (a = "") then
    if bool_decide (b = "") then "" else Clean b
  else Clean (a +:+ "/" +:+ b).

End filepath.

(** ** The wire messages *)

(** The [Request] and [Response] structs.  A Rocq record cannot have a field
    called [Type], and the two structs share that field name, so every field
    carries its struct's name. *)
Record Request := {
  Request_Type : Z;
  Request_Path : string;
  Request_Data : list byte
}.

Record Response := {
  Response_Type : Z;
  Response_Message : string
}.

(** The declarations of the request and response kinds and the [%s]
    formatting of the two messages are part of the generated message code,
    which is not among the sources: they are parameters of the development.
    The kinds are integer constants; the three request kinds are the labels
    of one [switch], hence pairwise different, and the two response kinds
    are different statuses. *)
Class Wire := {
  requestMkdir : Z;
  requestCreate : Z;
  requestRemove : Z;
  responseOk : Z;
  responseErr : Z;
  Request_String : Request → string;
  Response_String : Response → string;
  request_kinds_NoDup : NoDup [requestMkdir; requestCreate; requestRemove];
  response_kinds_ne : responseOk ≠ responseErr
}.

(** ** The file system *)

Module os.

Inductive Node :=
| Dir
| File (content : list byte).

(** A file system maps the resolved name of every entry other than the
    root directory to its node.  Permissions, links and I/O failures are
    not modelled: an operation fails only for the reasons spelled out
    below. *)
Abbreviation FS := (gmap (list string) Node).

(** Name resolution, from the root directory: empty and [.] elements
    are skipped and [..] steps back to the parent, the root being its
    own parent. *)
Definition resolve (name : string) : list string :=
  rev (fold_left (filepath.clean_step true) (filepath.elements name) []).

(** The node a resolved name denotes. *)
Definition stat (fs : FS) (p : list string) : option Node :=
  match p with
  | [] => Some Dir
  | _ => fs !! p
  end.

Definition parent (p : list string) : list string := removelast p.

(** The error of looking up the directory that holds [p]. *)
Definition parent_error (fs : FS) (p : list string) : option Errno :=
  match stat fs (parent p) with
  | Some Dir => None
  | Some (File _) => Some ENOTDIR
  | None => Some ENOENT
  end.

(** [os.Mkdir(name, perm)]. *)
Definition Mkdir (name : string) (fs : FS) : FS * option error :=
  let p := resolve name in
  match p with
  | [] => (fs, Some (PathError "mkdir" name EEXIST))
  | _ =>
      match parent_error fs p with
      | Some e => (fs, Some (PathError "mkdir" name e))
      | None =>
          match fs !! p with
          | Some _ => (fs, Some (PathError "mkdir" name EEXIST))
          | None => (<[p := Dir]> fs, None)
          end
      end
  end.

(** [ioutil.WriteFile(name, data, perm)]: open for writing with
    create-and-truncate, write everything, close. *)
Definition WriteFile (name : string) (data : list byte) (fs : FS)
  : FS * option error :=
  let p := resolve name in
  match p with
  | [] => (fs, Some (PathError "open" name EISDIR))
  | _ =>
      match parent_error fs p with
      | Some e => (fs, Some (PathError "open" name e))
      | None =>
          match fs !! p with
          | Some Dir => (fs, Some (PathError "open" name EISDIR))
          | _ => (<[p := File data]> fs, None)
          end
      end
  end.

(** The entries that are not [p] and not below [p]. *)
Definition outside (p : list string) (fs : FS) : FS :=
  filter (λ kv, ¬ p `prefix_of` kv.1) fs.

(** [os.RemoveAll(name)]: removes the entry and everything below it; as
    documented, "if the path does not exist, RemoveAll returns nil".  The
    root directory loses its contents but cannot itself be removed. *)
Definition RemoveAll (name : string) (fs : FS) : FS * option error :=
  let p := resolve name in
  match p with
  | [] => (∅, Some (PathError "unlinkat" name EBUSY))
  | _ => (outside p fs, None)
  end.

End os.

(** ** The server *)

Record Server := {
  Server_address : string;
  Server_port : Z;
  Server_path : string
}.

Section server.
Context `{Wire}.

(** [validateRequest]: [None] is Go's [nil]. *)
Definition validateRequest (sv : Server) (req : Request) : option error :=
  if bool_decide (Request_Path req = "") then
    Some (errorString "Missing request path")
  else if bool_decide (Request_Path req ≠ filepath.Clean (Request_Path req)) then
    Some (errorString ("Erroneous path value: '" +:+ Request_Path req +:+ "'"))
  else None.

(** [ApplyRequest] fills in the response it is handed and returns an
    error; here it returns the new file system, the response and the
    error. *)
Definition ApplyRequest (sv : Server) (req : Request) (fs : os.FS)
  : os.FS * Response * option error :=
  let ok := {| Response_Type := responseOk; Response_Message := "" |} in
  match validateRequest sv req with
  | Some err =>
      (fs, {| Response_Type := responseErr; Response_Message := Error err |}, None)
  | None =>
      let absPath := filepath.Join (Server_path sv) (Request_Path req) in
      let '(fs', err) :=
        if bool_decide (Request_Type req = requestMkdir) then
          os.Mkdir absPath fs
        else if bool_decide (Request_Type req = requestCreate) then
          os.WriteFile absPath (Request_Data req) fs
        else if bool_decide (Request_Type req = requestRemove) then
          os.RemoveAll absPath fs
        else
          (fs, Some (errorString ("Unhandled request: " +:+ Request_String req))) in
      match err with
      | Some e =>
          (fs', {| Response_Type := responseErr; Response_Message := Error e |}, None)
      | None => (fs', ok, None)
      end
  end.

End server.

(** ** fsnotify *)

Module fsnotify.

(** The operation bits of an event. *)
Definition Create : Z := 1.
Definition Write : Z := 2.
Definition Remove : Z := 4.
Definition Rename : Z := 8.
Definition Chmod : Z := 16.

Record Event := {
  Name : string;
  Op : Z
}.

End fsnotify.

(** ** The client's outside world *)

(** One call of the function handed to [filepath.Walk]: the visited path,
    whether its [os.FileInfo] is a directory, and the error [Walk] met on
    the way to it. *)
Record WalkEntry := {
  we_path : string;
  we_IsDir : bool;
  we_err : option error
}.

(** What the client asks of its environment.  Each operation takes the
    state of the world and returns its result together with the next state,
    so that the answers may change from one call to the next.

    - [Rel] is [filepath.Rel], which depends on its two arguments only;
    - [Walk root] lists, in order, the calls [filepath.Walk(root, fn)] makes
      to [fn] as long as [fn] returns [nil];
    - [ReadFile] is [ioutil.ReadFile]; [Stat] is [os.Stat], giving
      [IsDir()] of the result;
    - [NewWatcher], [watcherAdd] and [watcherClose] are the fsnotify
      watcher;
    - [Dial] is [tls.Dial] followed by [rpc.NewClient]; [Call] is
      [rconn.Call("Server.ApplyRequest", req, &resp)], which yields either
      the reply stored into [resp] or an error that leaves [resp] as it
      was; [connClose] is [rconn.Close]. *)
Class World (W : Type) := {
  Rel : string → string → error + string;
  Walk : string → W → list WalkEntry * W;
  ReadFile : string → W → (error + list byte) * W;
  Stat : string → W → (error + bool) * W;
  NewWatcher : W → option error * W;
  watcherAdd : string → W → option error * W;
  watcherClose : W → W;
  Dial : string → W → option error * W;
  Call : Request → W → (error + Response) * W;
  connClose : W → W
}.

(** What the client did on the network, oldest event first. *)
Inductive NetEvent :=
| Connect (ok : bool)
| Sent (req : Request)
| Close.

Record Client := {
  Client_path : string;
  Client_server : string
}.

(** What one round of the [select] in [watcherLoop] receives: an event or
    the closing of the event channel, an error or the closing of the error
    channel, or the timer. *)
Inductive Select :=
| RecvEvent (event : option fsnotify.Event)
| RecvError (err : option error)
| Timeout.

(** How far [watcherLoop] got on the rounds it was given: it returned, or it
    is blocked in [select] with [reqs] buffered. *)
Inductive LoopResult :=
| Returned (err : option error)
| Waiting (reqs : list Request).

Section client.
Context `{Wire} {W : Type} `{!World W}.

Record State := {
  world : W;
  log : list NetEvent
}.

(** Computations of the client: state passing over the world and the
    log. *)
Definition M (A : Type) : Type := State → A * State.

Definition ret {A} (a : A) : M A := λ st, (a, st).

Definition bind {A B} (m : M A) (k : A → M B) : M B :=
  λ st, let '(a, st') := m st in k a st'.

Notation "x <~ m ; k" := (bind m (λ x, k))
  (at level 100, m at next level, right associativity, only parsing).
Notation "m ;> k" := (bind m (λ _, k))
  (at level 100, right associativity, only parsing).

(** An operation of the world, run on the current state. *)
Definition perform {A} (op : W → A * W) : M A :=
  λ st, let '(a, w) := op (world st) in (a, {| world := w; log := log st |}).

Definition perform_ (op : W → W) : M unit :=
  λ st, (tt, {| world := op (world st); log := log st |}).

Definition record (ev : NetEvent) : M unit :=
  λ st, (tt, {| world := world st; log := log st ++ [ev] |}).

Definition requestsBufferSize : nat := 100.

(** [serverConnect]. *)
Definition serverConnect (c : Client) : M (option error) :=
  err <~ perform (Dial (Client_server c));
  record (Connect (bool_decide (err = None))) ;>
  ret err.

(** [var resp Response]. *)
Definition zeroResponse : Response :=
  {| Response_Type := 0; Response_Message := "" |}.

(** The [for] loop of [sendRequests].  The error [Call] returns is
    dropped; only the response is looked at. *)
Fixpoint sendLoop (reqs : list Request) : M (option error) :=
  match reqs with
  | [] => ret None
  | req :: rest =>
      r <~ perform (Call req);
      record (Sent req) ;>
      let resp := match r with inr reply => reply | inl _ => zeroResponse end in
      if bool_decide (Response_Type resp = responseErr) then
        ret (Some (errorString ("Sending request to server '" +:+ Request_String req
                                  +:+ "' failed: " +:+ Response_String resp)))
      else sendLoop rest
  end.

(** [sendRequests]; the deferred [rconn.Close()] runs when the loop is
    left. *)
Definition sendRequests (c : Client) (reqs : list Request) : M (option error) :=
  if bool_decide (length reqs = 0%nat) then ret None
  else
    err <~ serverConnect c;
    match err with
    | Some e => ret (Some (Wrap e "Connection to server failed"))
    | None =>
        res <~ sendLoop reqs;
        perform_ connClose ;>
        record Close ;>
        ret res
    end.

Definition newMkdirRequest (name : string) : Request :=
  {| Request_Type := requestMkdir; Request_Path := name; Request_Data := [] |}.

Definition newCreateRequest (path name : string) : M (error + Request) :=
  r <~ perform (ReadFile path);
  match r with
  | inl err => ret (inl err)
  | inr content =>
      ret (inr {| Request_Type := requestCreate; Request_Path := name;
                  Request_Data := content |})
  end.

Definition newRemoveRequest (name : string) : Request :=
  {| Request_Type := requestRemove; Request_Path := name; Request_Data := [] |}.

(** [filepath.Walk(root, fn)] for a function that returns [nil] or an
    error other than [SkipDir]: the walk stops at the first error.  The
    variables the Go closure captures are the state [S] handed from one
    call to the next. *)
Fixpoint walkVisits {S} (walkFn : WalkEntry → S → M (option error * S))
    (visits : list WalkEntry) (s : S) : M (option error * S) :=
  match visits with
  | [] => ret (None, s)
  | v :: rest =>
      r <~ walkFn v s;
      match r with
      | (Some err, s') => ret (Some err, s')
      | (None, s') => walkVisits walkFn rest s'
      end
  end.

Definition filepath_Walk {S} (root : string)
    (walkFn : WalkEntry → S → M (option error * S)) (s : S)
  : M (option error * S) :=
  visits <~ perform (Walk root);
  walkVisits walkFn visits s.

(** The function [Sync] hands to [filepath.Walk]; it captures [reqs]. *)
Definition syncVisit (c : Client) (v : WalkEntry) (reqs : list Request)
  : M (option error * list Request) :=
  match we_err v with
  | Some err => ret (Some err, reqs)
  | None =>
      if bool_decide (we_path v = Client_path c) then ret (None, reqs)
      else
        match Rel (Client_path c) (we_path v) with
        | inl err => ret (Some err, reqs)
        | inr relPath =>
            r <~ (if we_IsDir v then ret (inr (newMkdirRequest relPath))
                  else newCreateRequest (we_path v) relPath);
            match r with
            | inl err => ret (Some err, reqs)
            | inr req =>
                let reqs := reqs ++ [req] in
                if bool_decide (length reqs = requestsBufferSize) then
                  err <~ sendRequests c reqs;
                  match err with
                  | Some e => ret (Some e, reqs)
                  | None => ret (None, [])
                  end
                else ret (None, reqs)
            end
        end
  end.

(** [Sync]. *)
Definition Sync (c : Client) : M (option error) :=
  r <~ filepath_Walk (Client_path c) (syncVisit c) [];
  match r with
  | (Some err, _) => ret (Some err)
  | (None, reqs) => sendRequests c reqs
  end.

(** [walkDir]. *)
Definition walkDir (root : string) (dirFunc : string → M (option error))
  : M (option error) :=
  r <~ filepath_Walk root
         (λ v (_ : unit),
            match we_err v with
            | Some err => ret (Some err, tt)
            | None =>
                if negb (we_IsDir v) then ret (None, tt)
                else err <~ dirFunc (we_path v); ret (err, tt)
            end) tt;
  ret r.1.

(** [recursiveAddWatchers]. *)
Definition recursiveAddWatchers (c : Client) (root : string) : M (option error) :=
  walkDir root (λ path, perform (watcherAdd path)).

(** [startWatcher]. *)
Definition startWatcher (c : Client) : M (option error) :=
  err <~ perform NewWatcher;
  match err with
  | Some e => ret (Some e)
  | None =>
      err <~ recursiveAddWatchers c (Client_path c);
      match err with
      | Some e => perform_ watcherClose ;> ret (Some e)
      | None => ret None
      end
  end.

(** [isDirectory]. *)
Definition isDirectory (path : string) : M bool :=
  r <~ perform (Stat path);
  ret (match r with inr isDir => isDir | inl _ => false end).

(** [event.Op&op == op]. *)
Definition has (event : fsnotify.Event) (op : Z) : bool :=
  bool_decide (Z.land (fsnotify.Op event) op = op).

(** [handleEvent]: the request, if any, and the error. *)
Definition handleEvent (c : Client) (event : fsnotify.Event)
  : M (option Request * option error) :=
  match Rel (Client_path c) (fsnotify.Name event) with
  | inl err => ret (None, Some err)
  | inr relPath =>
      if has event fsnotify.Create then
        isDir <~ isDirectory (fsnotify.Name event);
        if isDir then
          err <~ recursiveAddWatchers c (fsnotify.Name event);
          match err with
          | Some e => ret (None, Some e)
          | None => ret (Some (newMkdirRequest relPath), None)
          end
        else
          r <~ newCreateRequest (fsnotify.Name event) relPath;
          match r with
          | inl err => ret (None, Some err)
          | inr req => ret (Some req, None)
          end
      else if has event fsnotify.Remove then
        ret (Some (newRemoveRequest relPath), None)
      else if has event fsnotify.Rename then
        ret (Some (newRemoveRequest relPath), None)
      else if has event fsnotify.Write then
        r <~ newCreateRequest (fsnotify.Name event) relPath;
        match r with
        | inl err => ret (None, Some err)
        | inr req => ret (Some req, None)
        end
      else if has event fsnotify.Chmod then
        ret (None, None)
      else
        ret (None, Some (errorString ("Erroneous event value (" +:+ pretty (fsnotify.Op event)
                                        +:+ "): " +:+ fsnotify.Name event)))
  end.

(** [watcherLoop], run on the rounds its [select] goes through. *)
Fixpoint watcherLoop (c : Client) (rounds : list Select) (reqs : list Request)
  : M LoopResult :=
  match rounds with
  | [] => ret (Waiting reqs)
  | RecvEvent None :: _ => ret (Returned None)
  | RecvEvent (Some event) :: rest =>
      r <~ handleEvent c event;
      match r with
      | (_, Some err) => ret (Returned (Some (Wrap err "Handling file event failed")))
      | (req, None) =>
          let reqs := match req with Some rq => reqs ++ [rq] | None => reqs end in
          if bool_decide (length reqs = requestsBufferSize) then
            err <~ sendRequests c reqs;
            match err with
            | Some e => ret (Returned (Some e))
            | None => watcherLoop c rest []
            end
          else watcherLoop c rest reqs
      end
  | RecvError None :: _ => ret (Returned None)
  | RecvError (Some err) :: _ => ret (Returned (Some err))
  | Timeout :: rest =>
      if bool_decide (0 < length reqs)%nat then
        err <~ sendRequests c reqs;
        match err with
        | Some e => ret (Returned (Some e))
        | None => watcherLoop c rest []
        end
      else watcherLoop c rest reqs
  end.

(** [SyncAndMonitor]. *)
Definition SyncAndMonitor (c : Client) (rounds : list Select) : M LoopResult :=
  err <~ startWatcher c;
  match err with
  | Some e =>
      ret (Returned (Some (Wrap e ("Monitoring directory '" +:+ Client_path c +:+ "' failed"))))
  | None =>
      err <~ Sync c;
      match err with
      | Some e => ret (Returned (Some (Wrap e "Initial files sending failure")))
      | None => watcherLoop c rounds []
      end
  end.

End client.

(** ** The command-line front ends *)

(** What a [main] does with its parsed flags: print the flag defaults and
    exit with a status, or go on to build and run the client or server. *)
Inductive Startup :=
| UsageExit (status : Z)
| Start (address : string) (port : Z) (directory : string).

Definition invalidFlags (directory address : string) (port : Z) : bool :=
  bool_decide (directory = "") || bool_decide (address = "")
  || bool_decide (port > 65535) || bool_decide (port <= 0).

(** [main] of cmd/client, up to the call of [NewClient]. *)
Definition client_main (directory address : string) (port : Z) : Startup :=
  if invalidFlags directory address port then UsageExit 0
  else Start address port directory.

(** [main] of cmd/server, up to the call of [NewServer]. *)
Definition server_main (directory address : string) (port : Z) : Startup :=
  if invalidFlags directory address port then UsageExit 1
  else Start address port directory.

(** ** Notions used in the statements *)

Module fsinv.

(** A file system is well formed when no entry is stored under the name of
    the root and every entry lies in a directory. *)
Definition wf (fs : os.FS) : Prop :=
  ∀ p n, fs !! p = Some n → p ≠ [] ∧ os.stat fs (os.parent p) = Some os.Dir.

(** The directory [dir] exists and holds nothing. *)
Definition empty_dir (fs : os.FS) (dir : list string) : Prop :=
  os.stat fs dir = Some os.Dir ∧
  ∀ p, dir `prefix_of` p → p ≠ dir → fs !! p = None.

End fsinv.

(** The network events of one flush of a non-empty batch: one connection, on
    which the requests go out in order, and its closing. *)
Definition flush_events (reqs : list Request) : list NetEvent :=
  match reqs with
  | [] => []
  | _ => Connect true :: (Sent <$> reqs) ++ [Close]
  end.


Section responses.
Context `{Wire}.

(** The response of a request that went through. *)
Definition okResponse : Response :=
  {| Response_Type := responseOk; Response_Message := "" |}.

(** The response that reports [err]. *)
Definition errResponse (err : error) : Response :=
  {| Response_Type := responseErr; Response_Message := Error err |}.

(** [rpc.Accept] serves the requests of a connection one after the
    other: the file system after the last of them and the responses, in
    order. *)
Fixpoint applyAll (sv : Server) (reqs : list Request) (fs : os.FS)
  : os.FS * list Response :=
  match reqs with
  | [] => (fs, [])
  | req :: rest =>
      let '(fs1, resp, _) := ApplyRequest sv req fs in
      let '(fs2, resps) := applyAll sv rest fs1 in
      (fs2, resp :: resps)
  end.

(** The create request for [path] with the content [data]. *)
Definition putFile (path : string) (data : list byte) : Request :=
  {| Request_Type := requestCreate; Request_Path := path; Request_Data := data |}.

End responses.

(** No separator occurs in [e]. *)
Fixpoint plain (e : string) : bool :=
  match e with
  | EmptyString => true
  | String c rest => negb (filepath.IsPathSeparator c) && plain rest
  end.

(** [e] names an entry of a directory: not empty, not [.] or [..], and
    without separator. *)
Definition entry_name (e : string) : Prop :=
  e ≠ "" ∧ e ≠ "." ∧ e ≠ ".." ∧ plain e = true.

Section client_notions.
Context `{Wire} {W : Type} `{!World W}.

(** Every call of [reqs], made one after the other from [w] on, fails in
    transport. *)
Fixpoint all_calls_fail (reqs : list Request) (w : W) : Prop :=
  match reqs with
  | [] => True
  | req :: rest =>
      match Call req w with
      | (inl _, w') => all_calls_fail rest w'
      | (inr _, _) => False
      end
  end.

(** Handling [event] from the world [w] comes to read the file the event
    names, in the world [w1]: the event has the create bit and [os.Stat]
    does not find a directory, or it has the write bit and none of the
    create, remove and rename bits. *)
Inductive reads_content (event : fsnotify.Event) (w : W) : W → Prop :=
| reads_created r w1 :
    has event fsnotify.Create = true →
    Stat (fsnotify.Name event) w = (r, w1) →
    r ≠ inr true →
    reads_content event w w1
| reads_written :
    has event fsnotify.Create = false →
    has event fsnotify.Remove = false →
    has event fsnotify.Rename = false →
    has event fsnotify.Write = true →
    reads_content event w w.




End client_notions.

(** ** The server's start *)

(** The entries that lie directly in the directory [dir]. *)
Definition children (fs : os.FS) (dir : list string) : os.FS :=
  filter (λ kv, kv.1 ≠ [] ∧ os.parent kv.1 = dir) fs.

(** [checkOrMakeEmptyDirectory]: [os.Open] fails when nothing is at [path],
    and then the directory is made; what is there must be a directory in
    which [Readdir(1)] finds nothing.  The path goes to [os.Open] as it is
    given: [os.resolve] finds what the system finds for a path in its
    shortest form, that [filepath.Clean] leaves as it is. *)
Definition checkOrMakeEmptyDirectory (path : string) (fs : os.FS)
  : os.FS * option error :=
  match os.stat fs (os.resolve path) with
  | None => os.Mkdir path fs
  | Some (os.File _) => (fs, Some (errorString (path +:+ ": Not a directory")))
  | Some os.Dir =>
      if bool_decide (size (children fs (os.resolve path)) = 0%nat) then (fs, None)
      else (fs, Some (errorString (path +:+ ": Directory is not empty")))
  end.

(** [filepath.Abs], for a process whose working directory is the root
    directory, from which [os.resolve] starts. *)
Definition Abs (path : string) : string :=
  if filepath.rooted path then filepath.Clean path else filepath.Join "/" path.

(** [NewServer].  [tlsConfig] is the error of [tls.LoadX509KeyPair] in
    [newServerTLSConfig], which reads the two certificate files. *)
Definition NewServer (tlsConfig : option error) (address : string) (port : Z)
    (path : string) (fs : os.FS) : os.FS * (error + Server) :=
  let absPath := Abs path in
  match checkOrMakeEmptyDirectory path fs with
  | (fs', Some err) => (fs', inl err)
  | (fs', None) =>
      match tlsConfig with
      | Some err => (fs', inl (Wrap err "Creating TLS config failed"))
      | None =>
          (fs', inr {| Server_address := address; Server_port := port;
                       Server_path := absPath |})
      end
  end.

(** The conversion [uint16(n)] of an [int]. *)
Definition uint16 (n : Z) : Z := n mod 65536.

(** How far [main] of cmd/server gets: it exits with a status, or it has a
    server and calls [Listen]. *)
Inductive ServerRun :=
| Exited (status : Z)
| Listening (sv : Server).

(** [main] of cmd/server; [log.Fatal] exits with status 1. *)
Definition server_run (tlsConfig : option error) (directory address : string)
    (port : Z) (fs : os.FS) : os.FS * ServerRun :=
  match server_main directory address port with
  | UsageExit status => (fs, Exited status)
  | Start address port directory =>
      match NewServer tlsConfig address (uint16 port) directory fs with
      | (fs', inl _) => (fs', Exited 1)
      | (fs', inr sv) => (fs', Listening sv)
      end
  end.

(** The path begins with a [..] element. *)
Definition climbs (path : string) : Prop :=
  head (filepath.elements path) = Some "..".

(** [p] lies below the directory [dir], and is not [dir]. *)
Definition below (dir p : list string) : Prop :=
  dir `prefix_of` p ∧ p ≠ dir.

(** What a request is about: the entry that the path of the request,
    joined to the path of the server, denotes. *)
Definition target (sv : Server) (req : Request) : list string :=
  os.resolve (filepath.Join (Server_path sv) (Request_Path req)).

Section replay_notions.
Context `{Wire}.

(** The request that puts [entry.2] under the names [entry.1], relative to
    the directory of the server. *)
Definition request_of (entry : list string * os.Node) : Request :=
  match entry.2 with
  | os.Dir => newMkdirRequest (filepath.join entry.1)
  | os.File data => putFile (filepath.join entry.1) data
  end.

End replay_notions.

(** A listing of a tree, directories before what they hold: every entry
    is listed under the names that lead to it, no two entries under the
    same names, and an entry that is not at the top lies in a directory
    listed before it. *)
Definition listing (tree : list (list string * os.Node)) : Prop :=
  Forall (λ entry, entry.1 ≠ [] ∧ Forall entry_name entry.1) tree
  ∧ NoDup tree.*1
  ∧ ∀ i entry, tree !! i = Some entry →
      os.parent entry.1 = []
      ∨ ∃ j, (j < i)%nat ∧ tree !! j = Some (os.parent entry.1, os.Dir).



Section client_more_notions.
Context `{Wire} {W : Type} `{!World W}.

(** The response [sendRequests] looks at after a call: the reply, or the
    zero value when the call failed. *)
Definition response_seen (r : error + Response) : Response :=
  match r with inr reply => reply | inl _ => zeroResponse end.

(** Called one after the other from the world [w] on, the requests [passed]
    are not answered with an error, and then [refused] is. *)
Fixpoint refused_after (passed : list Request) (refused : Request) (w : W) : Prop :=
  match passed with
  | [] => Response_Type (response_seen (Call refused w).1) = responseErr
  | req :: rest =>
      Response_Type (response_seen (Call req w).1) ≠ responseErr
      ∧ refused_after rest refused (Call req w).2
  end.

(** [watcher.Add] on each directory in turn, up to the first error. *)
Fixpoint addWatches (dirs : list string) (w : W) : option error * W :=
  match dirs with
  | [] => (None, w)
  | dir :: rest =>
      match watcherAdd dir w with
      | (Some err, w') => (Some err, w')
      | (None, w') => addWatches rest w'
      end
  end.

(** The event tells of a removal or a renaming, not of a creation, and the
    request [handleEvent] makes of it is [req]. *)
Definition removal (c : Client) (event : fsnotify.Event) (req : Request) : Prop :=
  has event fsnotify.Create = false
  ∧ (has event fsnotify.Remove = true ∨ has event fsnotify.Rename = true)
  ∧ ∃ relPath, Rel (Client_path c) (fsnotify.Name event) = inr relPath
               ∧ req = newRemoveRequest relPath.

(** The event only tells of a change of attributes. *)
Definition chmod_only (c : Client) (event : fsnotify.Event) : Prop :=
  has event fsnotify.Create = false ∧ has event fsnotify.Remove = false
  ∧ has event fsnotify.Rename = false ∧ has event fsnotify.Write = false
  ∧ has event fsnotify.Chmod = true
  ∧ ∃ relPath, Rel (Client_path c) (fsnotify.Name event) = inr relPath.

(** A round of the loop in which nothing is to be sent: the timer, or an
    event that only tells of a change of attributes. *)
Definition quiet (c : Client) (round : Select) : Prop :=
  match round with
  | Timeout => True
  | RecvEvent (Some event) => chmod_only c event
  | _ => False
  end.

(** The event has none of the five operation bits. *)
Definition unknown_op (event : fsnotify.Event) : Prop :=
  has event fsnotify.Create = false ∧ has event fsnotify.Remove = false
  ∧ has event fsnotify.Rename = false ∧ has event fsnotify.Write = false
  ∧ has event fsnotify.Chmod = false.

End client_more_notions.

(** ** The client's start *)

(** [net.JoinHostPort]: a host with a colon is taken for a literal IPv6
    address and put in brackets. *)
Definition JoinHostPort (host port : string) : string :=
  match index 0 ":" host with
  | Some _ => "[" +:+ host +:+ "]:" +:+ port
  | None => host +:+ ":" +:+ port
  end.

Section client_start.
Context {W : Type} `{!World W}.

Local Notation "x <~ m ; k" := (bind m (λ x, k))
  (at level 100, m at next level, right associativity, only parsing).

(** [getClientTLSConfig]: the error, if the certificate cannot be read;
    what [AppendCertsFromPEM] makes of the file is not looked at. *)
Definition getClientTLSConfig : M (option error) :=
  r <~ perform (ReadFile "./certs/server.cert");
  ret (match r with
       | inl err => Some (Wrap err "Creating TLS config failed")
       | inr _ => None
       end).

(** [NewClient].  [resolveTCPAddr] is [net.ResolveTCPAddr], which may
    look the host up on the network: an operation on the world, like the
    others, that returns its error. *)
Definition NewClient (resolveTCPAddr : string → W → option error * W)
    (address : string) (port : Z) (path : string) : M (error + Client) :=
  isDir <~ isDirectory path;
  if negb isDir then ret (inl (errorString (path +:+ ": Path not a directory")))
  else
    let absPath := Abs path in
    let addrport := JoinHostPort address (pretty port) in
    err <~ perform (resolveTCPAddr addrport);
    match err with
    | Some e => ret (inl e)
    | None =>
        err <~ getClientTLSConfig;
        match err with
        | Some e => ret (inl e)
        | None => ret (inr {| Client_path := absPath; Client_server := addrport |})
        end
    end.

(** How far [main] of cmd/client gets: it exits with a status, or it has a
    client and calls [SyncAndMonitor]. *)
Inductive ClientRun :=
| ClientExited (status : Z)
| Monitoring (c : Client).

(** [main] of cmd/client, up to the call of [SyncAndMonitor]; [log.Fatal]
    exits with status 1. *)
Definition client_run (resolveTCPAddr : string → W → option error * W)
    (directory address : string) (port : Z) : M ClientRun :=
  match client_main directory address port with
  | UsageExit status => ret (ClientExited status)
  | Start address port directory =>
      r <~ NewClient resolveTCPAddr address (uint16 port) directory;
      match r with
      | inl _ => ret (ClientExited 1)
      | inr c => ret (Monitoring c)
      end
  end.

End client_start.

(** ** A concrete instance

    The definitions are run below on these values of the parameters. *)

(** Kinds numbered from zero in the order the sources name them; a message
    is printed as its fields. *)
Definition iotaWire : Wire := {|
  requestMkdir := 0;
  requestCreate := 1;
  requestRemove := 2;
  responseOk := 0;
  responseErr := 1;
  Request_String := λ req, pretty (Request_Type req) +:+ " " +:+ Request_Path req;
  Response_String := λ resp, pretty (Response_Type resp) +:+ " " +:+ Response_Message resp;
  request_kinds_NoDup := bool_decide_unpack (NoDup [0; 1; 2]) I;
  response_kinds_ne := bool_decide_unpack (0 ≠ 1) I
|}.

(** A world made of a scripted local directory and a server reached over a
    link: [sim_tree] is what a walk visits, [sim_files] the content of the
    files that can be read, [sim_link] how many calls the link still carries
    ([None]: the server cannot be reached), [sim_remote] the server's file
    system. *)
Record Sim := {
  sim_tree : list WalkEntry;
  sim_files : gmap string (list byte);
  sim_link : option nat;
  sim_server : Server;
  sim_remote : os.FS
}.

(** The elements of a cleaned path, the empty ones a leading separator
    leaves being dropped. *)
Definition sim_names (path : string) : list string :=
  filter (λ e, e ≠ "") (filepath.elements path).

(** From the elements of the base to those of the target: equal leading
    elements are skipped; the relative path climbs out of what is left of
    the base and descends what is left of the target.  [None] when the
    first element of the base that differs is [..]. *)
Fixpoint sim_relFrom (base targ : list string) : option (list string) :=
  match base, targ with
  | b :: base', t :: targ' =>
      if bool_decide (b = t) then sim_relFrom base' targ'
      else if bool_decide (b = "..") then None
      else Some (((λ _, "..") <$> base) ++ targ)
  | _, _ => Some (((λ _, "..") <$> base) ++ targ)
  end.

(** The path that leads from [basepath] to [targpath], for [Rel]. *)
Definition sim_Rel (basepath targpath : string) : error + string :=
  let base := filepath.Clean basepath in
  let targ := filepath.Clean targpath in
  let failure :=
    errorString ("Rel: can't make " +:+ targpath +:+ " relative to " +:+ basepath) in
  if bool_decide (targ = base) then inr "."
  else
    let base := if bool_decide (base = ".") then "" else base in
    if bool_decide (filepath.rooted base ≠ filepath.rooted targ) then inl failure
    else match sim_relFrom (sim_names base) (sim_names targ) with
         | None => inl failure
         | Some rel => inr (filepath.join rel)
         end.

(** [Stat], [ReadFile], [Dial] and [Call] of the scripted world; a call
    that the link carries is handed to [ApplyRequest]. *)
Definition sim_Stat (name : string) (w : Sim) : (error + bool) * Sim :=
  match filter (λ v, we_path v = name) (sim_tree w) with
  | v :: _ => (inr (we_IsDir v), w)
  | [] => (inl (PathError "stat" name ENOENT), w)
  end.

Definition sim_ReadFile (name : string) (w : Sim) : (error + list byte) * Sim :=
  match sim_files w !! name with
  | Some content => (inr content, w)
  | None => (inl (PathError "open" name ENOENT), w)
  end.

Definition sim_Dial (addr : string) (w : Sim) : option error * Sim :=
  match sim_link w with
  | Some _ => (None, w)
  | None => (Some (errorString ("dial tcp " +:+ addr +:+ ": connection refused")), w)
  end.

Definition sim_Call `{Wire} (req : Request) (w : Sim) : (error + Response) * Sim :=
  match sim_link w with
  | Some (S n) =>
      let '(fs, resp, _) := ApplyRequest (sim_server w) req (sim_remote w) in
      (inr resp, {| sim_tree := sim_tree w; sim_files := sim_files w;
                    sim_link := Some n; sim_server := sim_server w;
                    sim_remote := fs |})
  | _ => (inl (errorString "connection is shut down"), w)
  end.

Definition simWorld `{Wire} : World Sim := {|
  Rel := sim_Rel;
  Walk := λ _ w, (sim_tree w, w);
  ReadFile := sim_ReadFile;
  Stat := sim_Stat;
  NewWatcher := λ w, (None, w);
  watcherAdd := λ _ w, (None, w);
  watcherClose := λ w, w;
  Dial := sim_Dial;
  Call := sim_Call;
  connClose := λ w, w
|}.


(** A server on [/srv] whose directory is empty. *)
Definition srv : Server :=
  {| Server_address := "localhost"; Server_port := 12345; Server_path := "/srv" |}.

Definition srv_fs : os.FS := {[ ["srv"] := os.Dir ]}.

(** A client on [/home/u/box]. *)
Definition box : Client :=
  {| Client_path := "/home/u/box"; Client_server := "localhost:12345" |}.

(** The flat directory with the files [f0] ... [f(n-1)], every one of them
    with the content [content]. *)
Definition flat_names (n : nat) : list string :=
  (λ i, "/home/u/box/f" +:+ pretty i) <$> seq 0 n.

Definition flat_tree (n : nat) : list WalkEntry :=
  {| we_path := "/home/u/box"; we_IsDir := true; we_err := None |}
  :: ((λ name, {| we_path := name; we_IsDir := false; we_err := None |}) <$> flat_names n).

Definition flat_world (n : nat) (content : list byte) (link : option nat) : Sim := {|
  sim_tree := flat_tree n;
  sim_files := list_to_map ((λ name, (name, content)) <$> flat_names n);
  sim_link := link;
  sim_server := srv;
  sim_remote := srv_fs
|}.

(** The client starts in the world [w], with nothing on the network yet. *)
Definition start {W} (w : W) : State :=
  {| world := w; log := [] |}.

(** The server's directory after [d] and [d/f] were put there. *)
Definition srv_fs_d : os.FS :=
  (applyAll (H := iotaWire) srv
     [newMkdirRequest (H := iotaWire) "d"; putFile (H := iotaWire) "d/f" ["x"%byte]] srv_fs).1.

(** A link that is up and carries no call. *)
Definition dead_link : Sim := flat_world 0 [] (Some 0%nat).

(** The creation of a file that is gone before it is read. *)
Definition gone : fsnotify.Event :=
  {| fsnotify.Name := "/home/u/box/gone"; fsnotify.Op := fsnotify.Create |}.


(** A world whose watcher can take as many more directories as the state
    says; nothing else fails, and the walk shows [tree]. *)
Definition watchWorld `{Wire} (tree : list WalkEntry) : World nat := {|
  Rel := sim_Rel;
  Walk := λ _ n, (tree, n);
  ReadFile := λ _ n, (inr [], n);
  Stat := λ _ n, (inr false, n);
  NewWatcher := λ n, (None, n);
  watcherAdd := λ dir n,
    match n with
    | O => (Some (errorString "no space left on device"), n)
    | S n' => (None, n')
    end;
  watcherClose := λ _, 0%nat;
  Dial := λ _ n, (None, n);
  Call := λ _ n, (inr okResponse, n);
  connClose := λ n, n
|}.

(** The directory of the client with a directory [sub] that holds a file. *)
Definition nested_tree : list WalkEntry :=
  [{| we_path := "/home/u/box"; we_IsDir := true; we_err := None |};
   {| we_path := "/home/u/box/sub"; we_IsDir := true; we_err := None |};
   {| we_path := "/home/u/box/sub/x"; we_IsDir := false; we_err := None |}].

Definition nested_world : Sim := {|
  sim_tree := nested_tree;
  sim_files := {[ "/home/u/box/sub/x" := [] ]};
  sim_link := Some 10%nat;
  sim_server := srv;
  sim_remote := srv_fs
|}.


(** The files of the integration test, as a listing. *)
Definition test_listing : list (list string * os.Node) :=
  [(["file1"], os.File ["1"%byte]);
   (["file2"], os.File ["2"%byte]);
   (["file3"], os.File []);
   (["dir1"], os.Dir);
   (["dir1"; "file4"], os.File ["4"%byte])].

(** Events on the file [f] of the client's directory. *)
Definition removed_f : fsnotify.Event :=
  {| fsnotify.Name := "/home/u/box/f"; fsnotify.Op := fsnotify.Remove |}.

Definition renamed_f : fsnotify.Event :=
  {| fsnotify.Name := "/home/u/box/f"; fsnotify.Op := fsnotify.Rename |}.

Definition chmod_f : fsnotify.Event :=
  {| fsnotify.Name := "/home/u/box/f"; fsnotify.Op := fsnotify.Chmod |}.

Definition odd_f : fsnotify.Event :=
  {| fsnotify.Name := "/home/u/box/f"; fsnotify.Op := 32 |}.

Definition created_sub : fsnotify.Event :=
  {| fsnotify.Name := "/home/u/box/sub"; fsnotify.Op := fsnotify.Create |}.

(** The client's directory, empty, and the certificate of the server where
    the client looks for it. *)
Definition cert_world : Sim := {|
  sim_tree := flat_tree 0;
  sim_files := {[ "./certs/server.cert" := [] ]};
  sim_link := Some 10%nat;
  sim_server := srv;
  sim_remote := srv_fs
|}.

(** * Properties *)

(** ** Well-formed file systems *)

Section fs_facts.
Import os fsinv.
Implicit Types (fs : FS) (p k : list string).

Lemma parent_snoc p x : parent (p ++ [x]) = p.
Proof. apply removelast_last. Qed.

Lemma parent_prefix p : parent p `prefix_of` p.
Proof.
  destruct (decide (p = [])) as [->|Hne]; [done|].
  destruct (exists_last Hne) as (q & x & ->).
  rewrite parent_snoc. by apply prefix_app_r.
Qed.

Lemma parent_ne p : p ≠ [] → parent p ≠ p.
Proof.
  intros Hne. destruct (exists_last Hne) as (q & x & ->).
  rewrite parent_snoc. intros Heq.
  apply (f_equal length) in Heq. rewrite length_app in Heq. simpl in Heq. lia.
Qed.

Lemma prefix_parent p k : p `prefix_of` k → p ≠ k → p `prefix_of` parent k.
Proof.
  intros [s ->] Hne.
  destruct (decide (s = [])) as [->|Hs]; [by rewrite app_nil_r in Hne|].
  destruct (exists_last Hs) as (s' & x & ->).
  rewrite app_assoc, parent_snoc. by apply prefix_app_r.
Qed.

Lemma stat_nonroot fs p : p ≠ [] → stat fs p = fs !! p.
Proof. by destruct p. Qed.

(** In a well-formed file system nothing lies below a name that denotes
    nothing. *)
Lemma wf_absent_below fs p :
  wf fs → stat fs p = None → ∀ k, p `prefix_of` k → fs !! k = None.
Proof.
  intros Hwf Hp k [s ->].
  assert (Hp0 : p ≠ []) by (intros ->; discriminate).
  induction s as [|x s IH] using rev_ind.
  - rewrite app_nil_r. by rewrite <- stat_nonroot.
  - destruct (fs !! (p ++ s ++ [x])) as [n|] eqn:Hk; [|done].
    apply Hwf in Hk as [_ Hdir].
    rewrite app_assoc, parent_snoc, stat_nonroot in Hdir by (by destruct p).
    congruence.
Qed.

Lemma outside_lookup_below fs p k : p `prefix_of` k → outside p fs !! k = None.
Proof.
  intros Hpre. unfold outside. apply map_lookup_filter_None. right.
  intros n _ Hnot. by apply Hnot.
Qed.

Lemma outside_lookup_other fs p k :
  ¬ p `prefix_of` k → outside p fs !! k = fs !! k.
Proof.
  intros Hpre. unfold outside.
  destruct (fs !! k) as [n|] eqn:Hk.
  - by apply map_lookup_filter_Some.
  - apply map_lookup_filter_None. by left.
Qed.

Lemma outside_absent fs p : wf fs → stat fs p = None → outside p fs = fs.
Proof.
  intros Hwf Hp. apply map_eq. intros k.
  destruct (decide (p `prefix_of` k)) as [Hpre|Hpre].
  - rewrite outside_lookup_below by done. symmetry. by eapply wf_absent_below.
  - by apply outside_lookup_other.
Qed.
End fs_facts.

Section fs_ops.
Import os fsinv.
Implicit Types (fs : FS) (p k : list string).

Lemma wf_empty : wf ∅.
Proof. intros p n Hp. by rewrite lookup_empty in Hp. Qed.

Lemma wf_insert fs p n :
  wf fs → p ≠ [] → stat fs (parent p) = Some Dir →
  n = Dir ∨ fs !! p ≠ Some Dir →
  wf (<[p := n]> fs).
Proof.
  intros Hwf Hp Hpar Hn k m Hk.
  assert (Hkeep : ∀ q, q ≠ p → stat fs q = Some Dir →
                       stat (<[p := n]> fs) q = Some Dir).
  { intros q Hq Hdir. destruct (decide (q = [])) as [->|Hq0]; [done|].
    rewrite stat_nonroot in * by done. by rewrite lookup_insert_ne. }
  destruct (decide (k = p)) as [->|Hne].
  - split; [done|]. apply Hkeep; [by apply parent_ne|done].
  - rewrite lookup_insert_ne in Hk by done.
    destruct (Hwf _ _ Hk) as [Hk0 Hdir]. split; [done|].
    destruct (decide (parent k = p)) as [Heq|Hneq]; [|by apply Hkeep].
    rewrite Heq in *. rewrite stat_nonroot in * by done.
    rewrite lookup_insert_eq. destruct Hn as [->|Hn]; [done|]. by destruct Hn.
Qed.

Lemma wf_outside fs p : wf fs → wf (outside p fs).
Proof.
  intros Hwf k m Hk. unfold outside in Hk.
  apply map_lookup_filter_Some in Hk as [Hk Hout]. simpl in Hout.
  destruct (Hwf _ _ Hk) as [Hk0 Hdir]. split; [done|].
  destruct (decide (parent k = [])) as [->|Hpk]; [done|].
  rewrite stat_nonroot in * by done.
  rewrite outside_lookup_other; [done|].
  intros Hpre. apply Hout. etrans; [done|]. apply parent_prefix.
Qed.

Lemma parent_error_None fs p :
  parent_error fs p = None → stat fs (parent p) = Some Dir.
Proof.
  unfold parent_error. by destruct (stat fs (parent p)) as [[]|].
Qed.

Lemma Mkdir_wf name fs : wf fs → wf (Mkdir name fs).1.
Proof.
  intros Hwf. unfold Mkdir.
  destruct (resolve name) as [|x p] eqn:Hp; [done|].
  destruct (parent_error fs (x :: p)) eqn:Hpar; [done|].
  destruct (fs !! (x :: p)) eqn:Hk; [done|]. simpl.
  apply wf_insert; auto using parent_error_None.
Qed.

Lemma WriteFile_wf name data fs : wf fs → wf (WriteFile name data fs).1.
Proof.
  intros Hwf. unfold WriteFile.
  destruct (resolve name) as [|x p] eqn:Hp; [done|].
  destruct (parent_error fs (x :: p)) eqn:Hpar; [done|].
  destruct (fs !! (x :: p)) as [[]|] eqn:Hk; [done|..]; simpl;
    (apply wf_insert; auto using parent_error_None; right; congruence).
Qed.

Lemma RemoveAll_wf name fs : wf fs → wf (RemoveAll name fs).1.
Proof.
  intros Hwf. unfold RemoveAll.
  destruct (resolve name); simpl; auto using wf_empty, wf_outside.
Qed.
End fs_ops.

(** ** The server *)

Section server_facts.
Context `{Wire}.
Import os fsinv.

Lemma kinds_distinct :
  requestMkdir ≠ requestCreate ∧ requestMkdir ≠ requestRemove
  ∧ requestCreate ≠ requestRemove.
Proof.
  pose proof request_kinds_NoDup as Hnd.
  apply NoDup_cons in Hnd as [Hmk Hnd]. apply NoDup_cons in Hnd as [Hcr _].
  apply not_elem_of_cons in Hmk as [Ha Hmk]. apply not_elem_of_cons in Hmk as [Hb _].
  apply not_elem_of_cons in Hcr as [Hc _]. done.
Qed.

Lemma ApplyRequest_invalid sv req fs err :
  validateRequest sv req = Some err →
  ApplyRequest sv req fs = (fs, errResponse err, None).
Proof. intros Hv. unfold ApplyRequest. by rewrite Hv. Qed.

Lemma ApplyRequest_Mkdir sv req fs :
  validateRequest sv req = None → Request_Type req = requestMkdir →
  ApplyRequest sv req fs =
    let '(fs', err) := Mkdir (filepath.Join (Server_path sv) (Request_Path req)) fs in
    (fs', from_option errResponse okResponse err, None).
Proof.
  intros Hv Ht. unfold ApplyRequest. rewrite Hv, Ht.
  rewrite bool_decide_eq_true_2 by done.
  by destruct (Mkdir _ _) as [fs' [e|]].
Qed.

Lemma ApplyRequest_Create sv req fs :
  validateRequest sv req = None → Request_Type req = requestCreate →
  ApplyRequest sv req fs =
    let '(fs', err) := WriteFile (filepath.Join (Server_path sv) (Request_Path req))
                         (Request_Data req) fs in
    (fs', from_option errResponse okResponse err, None).
Proof.
  intros Hv Ht. destruct kinds_distinct as (H1 & H2 & H3).
  unfold ApplyRequest. rewrite Hv, Ht.
  rewrite bool_decide_eq_false_2 by done.
  rewrite bool_decide_eq_true_2 by done.
  by destruct (WriteFile _ _ _) as [fs' [e|]].
Qed.

Lemma ApplyRequest_Remove sv req fs :
  validateRequest sv req = None → Request_Type req = requestRemove →
  ApplyRequest sv req fs =
    let '(fs', err) := RemoveAll (filepath.Join (Server_path sv) (Request_Path req)) fs in
    (fs', from_option errResponse okResponse err, None).
Proof.
  intros Hv Ht. destruct kinds_distinct as (H1 & H2 & H3).
  unfold ApplyRequest. rewrite Hv, Ht.
  rewrite !bool_decide_eq_false_2 by done.
  rewrite bool_decide_eq_true_2 by done.
  by destruct (RemoveAll _ _) as [fs' [e|]].
Qed.

Lemma ApplyRequest_unhandled sv req fs :
  validateRequest sv req = None →
  Request_Type req ∉ [requestMkdir; requestCreate; requestRemove] →
  ApplyRequest sv req fs =
    (fs, errResponse (errorString ("Unhandled request: " +:+ Request_String req)), None).
Proof.
  intros Hv Ht. unfold ApplyRequest. rewrite Hv.
  rewrite !bool_decide_eq_false_2; [done|set_solver..].
Qed.

(** The server keeps its file system well formed, whatever it is sent. *)
Lemma ApplyRequest_wf sv req fs : wf fs → wf (ApplyRequest sv req fs).1.1.
Proof.
  intros Hwf. unfold ApplyRequest.
  destruct (validateRequest sv req); [done|].
  repeat case_bool_decide.
  - pose proof (Mkdir_wf (filepath.Join (Server_path sv) (Request_Path req)) fs Hwf).
    by destruct (Mkdir _ _) as [fs' [e|]].
  - pose proof (WriteFile_wf (filepath.Join (Server_path sv) (Request_Path req))
                  (Request_Data req) fs Hwf).
    by destruct (WriteFile _ _ _) as [fs' [e|]].
  - pose proof (RemoveAll_wf (filepath.Join (Server_path sv) (Request_Path req)) fs Hwf).
    by destruct (RemoveAll _ _) as [fs' [e|]].
  - done.
Qed.
End server_facts.

(** ** Paths *)

Section path_facts.
Import filepath.

Lemma elements_nonempty s : elements s ≠ [].
Proof.
  destruct s as [|c s]; simpl; [done|].
  destruct (IsPathSeparator c); [done|]. by destruct (elements s).
Qed.

Lemma elements_plain_all s : Forall (λ e, plain e = true) (elements s).
Proof.
  induction s as [|c s IH]; simpl; [by repeat constructor|].
  destruct (IsPathSeparator c) eqn:Hc; [by constructor|].
  pose proof (elements_nonempty s).
  destruct (elements s) as [|e es]; [done|].
  inversion_clear IH. constructor; [|done]. simpl. by rewrite Hc.
Qed.

Lemma elements_plain e : plain e = true → elements e = [e].
Proof.
  induction e as [|c e IH]; simpl; [done|].
  intros [Hc He]%andb_prop. apply negb_true_iff in Hc. rewrite Hc.
  by rewrite IH.
Qed.

Lemma elements_app_sep a b :
  elements (a +:+ "/" +:+ b) = elements a ++ elements b.
Proof.
  induction a as [|c a IH]; [done|].
  change (String c a +:+ "/" +:+ b) with (String c (a +:+ "/" +:+ b)).
  simpl. rewrite IH. destruct (IsPathSeparator c); [done|].
  pose proof (elements_nonempty a). by destruct (elements a).
Qed.

Lemma elements_join l :
  Forall (λ e, plain e = true) l → l ≠ [] → elements (join l) = l.
Proof.
  induction 1 as [|e l He Hl IH]; [done|]. intros _.
  destruct l as [|e' l]; [by apply elements_plain|].
  change (join (e :: e' :: l)) with (e +:+ "/" +:+ join (e' :: l)).
  rewrite elements_app_sep, elements_plain, IH by done. done.
Qed.

Lemma clean_step_entry_name isRooted out e :
  entry_name e → clean_step isRooted out e = e :: out.
Proof.
  intros (H1 & H2 & H3 & _). unfold clean_step.
  by rewrite !bool_decide_eq_false_2.
Qed.

Lemma fold_clean_step_entry_names isRooted l out :
  Forall entry_name l →
  fold_left (clean_step isRooted) l out = rev l ++ out.
Proof.
  intros Hl. revert out. induction Hl as [|e l He Hl IH]; intros out; [done|].
  simpl. rewrite clean_step_entry_name, IH by done.
  by rewrite <- app_assoc.
Qed.

(** At the root, [Clean]'s loop only ever holds names of entries. *)
Lemma fold_clean_step_rooted l out :
  Forall (λ e, plain e = true) l → Forall entry_name out →
  Forall entry_name (fold_left (clean_step true) l out).
Proof.
  intros Hl. revert out. induction Hl as [|e l He Hl IH]; intros out Hout; [done|].
  simpl. apply IH. unfold clean_step.
  repeat case_bool_decide; try done.
  - destruct Hout as [|top below Htop Hbelow]; [done|].
    case_bool_decide; [by destruct Htop as (_ & _ & ? & _)|done].
  - by constructor.
Qed.

Lemma entry_name_plain l : Forall entry_name l → Forall (λ e, plain e = true) l.
Proof. intros Hl. eapply Forall_impl; [done|]. by intros e (_ & _ & _ & ?). Qed.

Lemma rooted_app a b : rooted a = true → rooted (a +:+ b) = true.
Proof. by destruct a. Qed.

(** [Clean] on paths that are already clean, with empty, [.] and [..]
    elements, and rooted. *)
Example Clean_examples :
  Forall (λ '(path, cleaned), filepath.Clean path = cleaned)
    [("abc", "abc"); ("abc/def", "abc/def"); ("a/b/c", "a/b/c"); (".", ".");
     ("..", ".."); ("../..", "../.."); ("../../abc", "../../abc");
     ("/abc", "/abc"); ("/", "/"); ("", "."); ("abc/", "abc");
     ("abc/def/", "abc/def"); ("./", "."); ("../", ".."); ("/abc/", "/abc");
     ("abc//def//ghi", "abc/def/ghi"); ("//abc", "/abc"); ("//abc//", "/abc");
     ("abc/./def", "abc/def"); ("/./abc/def", "/abc/def"); ("abc/.", "abc");
     ("abc/def/ghi/../jkl", "abc/def/jkl"); ("abc/def/../ghi/../jkl", "abc/jkl");
     ("abc/def/..", "abc"); ("abc/def/../..", "."); ("/abc/def/../..", "/");
     ("abc/def/../../..", ".."); ("/abc/def/../../..", "/");
     ("abc/def/../../../ghi/jkl/../../../mno", "../../mno"); ("/../abc", "/abc");
     ("abc/./../def", "def"); ("abc//./../def", "def");
     ("abc/../../././../def", "../../def")].
Proof. repeat constructor. Qed.

(** Resolving a cleaned rooted path leads where resolving the path itself
    leads. *)
Lemma resolve_Clean s : rooted s = true → os.resolve (Clean s) = os.resolve s.
Proof.
  intros Hs. unfold Clean. rewrite Hs.
  rewrite bool_decide_eq_false_2 by (by destruct s).
  unfold os.resolve at 1.
  set (out := fold_left (clean_step true) (elements s) []).
  assert (Hout : Forall entry_name out).
  { apply fold_clean_step_rooted; [apply elements_plain_all|constructor]. }
  change (elements ("/" +:+ join (rev out))) with ("" :: elements (join (rev out))).
  change (fold_left (clean_step true) ("" :: ?l) []) with (fold_left (clean_step true) l []).
  destruct (decide (out = [])) as [Heq|Hne].
  - unfold os.resolve. fold out. by rewrite Heq.
  - rewrite elements_join.
    + rewrite fold_clean_step_entry_names by (by apply Forall_rev).
      by rewrite rev_involutive, app_nil_r.
    + apply entry_name_plain. by apply Forall_rev.
    + intros Hrev. apply Hne. apply (f_equal (@rev _)) in Hrev.
      by rewrite rev_involutive in Hrev.
Qed.

(** Below an absolute directory, a relative path made of entry names
    leads to the entry of that name: joining does not leave the
    directory. *)
Lemma resolve_Join root rel :
  rooted root = true → Forall entry_name (elements rel) →
  os.resolve (Join root rel) = os.resolve root ++ elements rel.
Proof.
  intros Hroot Hrel. unfold Join.
  rewrite bool_decide_eq_false_2 by (by destruct root).
  rewrite resolve_Clean by (by apply rooted_app).
  unfold os.resolve. rewrite elements_app_sep, fold_left_app.
  rewrite fold_clean_step_entry_names by done.
  by rewrite rev_app_distr, rev_involutive.
Qed.
End path_facts.

Section os_results.
Import os fsinv.
Implicit Types (fs : FS) (p k : list string).

Lemma Mkdir_fresh name fs p :
  resolve name = p → p ≠ [] → stat fs (parent p) = Some Dir → fs !! p = None →
  Mkdir name fs = (<[p := Dir]> fs, None).
Proof.
  intros Hres Hp Hpar Hfree. unfold Mkdir, parent_error. rewrite Hres.
  destruct p; [done|]. by rewrite Hpar, Hfree.
Qed.

Lemma WriteFile_new name data fs p :
  resolve name = p → p ≠ [] → stat fs (parent p) = Some Dir → fs !! p = None →
  WriteFile name data fs = (<[p := File data]> fs, None).
Proof.
  intros Hres Hp Hpar Hfree. unfold WriteFile, parent_error. rewrite Hres.
  destruct p; [done|]. by rewrite Hpar, Hfree.
Qed.

Lemma WriteFile_orphan name data fs p :
  resolve name = p → p ≠ [] → stat fs (parent p) = None →
  WriteFile name data fs = (fs, Some (PathError "open" name ENOENT)).
Proof.
  intros Hres Hp Hpar. unfold WriteFile, parent_error. rewrite Hres.
  destruct p; [done|]. by rewrite Hpar.
Qed.

Lemma RemoveAll_nonroot name fs p :
  resolve name = p → p ≠ [] → RemoveAll name fs = (outside p fs, None).
Proof. intros Hres Hp. unfold RemoveAll. rewrite Hres. by destruct p. Qed.
End os_results.

Section server_claims.
Context `{Wire}.
Import os fsinv.

(** The two checks of [validateRequest]: a request passes exactly when its
    path is not empty and equal to its cleaned form.  The empty path and
    [a/../b] are rejected, each with its own message; [a/b/c] and
    [file.txt] pass. *)
Lemma validateRequest_accepts_iff :
  (∀ sv req,
      validateRequest sv req = None ↔
      Request_Path req ≠ "" ∧ filepath.Clean (Request_Path req) = Request_Path req)
  ∧ (∀ sv ty data,
        validateRequest sv {| Request_Type := ty; Request_Path := ""; Request_Data := data |}
        = Some (errorString "Missing request path")
        ∧ validateRequest sv {| Request_Type := ty; Request_Path := "a/../b"; Request_Data := data |}
          = Some (errorString "Erroneous path value: 'a/../b'")
        ∧ validateRequest sv {| Request_Type := ty; Request_Path := "a/b/c"; Request_Data := data |}
          = None
        ∧ validateRequest sv {| Request_Type := ty; Request_Path := "file.txt"; Request_Data := data |}
          = None).
Proof.
  split.
  - intros sv req. unfold validateRequest.
    case_bool_decide as Hempty; [split; [done|by intros [? _]]|].
    case_bool_decide as Hclean.
    + split; [done|]. intros [_ Heq]. by destruct Hclean.
    + split; [|done]. intros _. by split.
  - intros sv ty data. by vm_compute.
Qed.

(** C6.  A request whose path [validateRequest] rejects is answered with
    an error response carrying the validator's message, and the file
    system is left as it was. *)
Theorem ApplyRequest_rejects_invalid_path sv req fs err :
  validateRequest sv req = Some err →
  ApplyRequest sv req fs
  = (fs, {| Response_Type := responseErr; Response_Message := Error err |}, None).
Proof. apply ApplyRequest_invalid. Qed.

(** C9.  A request with a valid path whose kind is none of the three the
    server handles is answered with an error response whose message names
    the request; the file system is left as it was and [ApplyRequest]
    itself returns no error. *)
Theorem ApplyRequest_unhandled_kind sv req fs :
  validateRequest sv req = None →
  Request_Type req ≠ requestMkdir →
  Request_Type req ≠ requestCreate →
  Request_Type req ≠ requestRemove →
  ApplyRequest sv req fs
  = (fs, {| Response_Type := responseErr;
            Response_Message := "Unhandled request: " +:+ Request_String req |}, None).
Proof.
  intros Hv H1 H2 H3. rewrite ApplyRequest_unhandled; [done..|].
  rewrite !not_elem_of_cons. repeat split; [done..|]. apply not_elem_of_nil.
Qed.

(** C7.  A remove request with a valid path whose target is not the root
    of the file system is answered with an ok response; afterwards nothing
    is left at the target or below it and every other entry is as before;
    when nothing was at the target, the file system is unchanged. *)
Theorem ApplyRequest_remove sv req fs :
  wf fs →
  validateRequest sv req = None →
  Request_Type req = requestRemove →
  let target := resolve (filepath.Join (Server_path sv) (Request_Path req)) in
  target ≠ [] →
  ∃ fs',
    ApplyRequest sv req fs
    = (fs', {| Response_Type := responseOk; Response_Message := "" |}, None)
    ∧ (∀ p, target `prefix_of` p → stat fs' p = None)
    ∧ (∀ p, ¬ target `prefix_of` p → stat fs' p = stat fs p)
    ∧ (stat fs target = None → fs' = fs).
Proof.
  intros Hwf Hv Ht target Htarget. exists (outside target fs).
  rewrite ApplyRequest_Remove by done.
  rewrite (RemoveAll_nonroot _ _ target) by done. simpl.
  split; [done|]. split; [|split].
  - intros p Hpre. rewrite stat_nonroot.
    + by apply outside_lookup_below.
    + intros ->. by apply prefix_nil_inv in Hpre.
  - intros p Hpre. destruct (decide (p = [])) as [->|Hp]; [done|].
    rewrite !stat_nonroot by done. by apply outside_lookup_other.
  - intros Habs. by apply outside_absent.
Qed.
End server_claims.

Section ordering.
Context `{Wire}.
Import os fsinv.

Lemma entry_names_d : Forall entry_name (filepath.elements "d").
Proof. repeat constructor; done. Qed.

Lemma entry_names_d_f : Forall entry_name (filepath.elements "d/f").
Proof. repeat constructor; done. Qed.

(** C2.  On a server whose directory is empty, making [d], putting [d/f]
    and removing [d], in this order, all succeed and leave neither [d] nor
    [d/f]; making [d], removing [d] and then putting [d/f] leaves [d]
    absent, and the put is answered with the error of a missing parent
    directory. *)
Theorem ApplyRequest_order_matters sv fs X :
  filepath.rooted (Server_path sv) = true →
  let root := resolve (Server_path sv) in
  empty_dir fs root →
  let mk := newMkdirRequest "d" in
  let put := putFile "d/f" X in
  let rm := newRemoveRequest "d" in
  let ok := {| Response_Type := responseOk; Response_Message := "" |} in
  (∃ fs1,
      applyAll sv [mk; put; rm] fs = (fs1, [ok; ok; ok])
      ∧ stat fs1 (root ++ ["d"]) = None
      ∧ stat fs1 (root ++ ["d"; "f"]) = None)
  ∧ (∃ fs2,
        applyAll sv [mk; rm; put] fs
        = (fs2, [ok; ok;
                 {| Response_Type := responseErr;
                    Response_Message :=
                      Error (PathError "open" (filepath.Join (Server_path sv) "d/f") ENOENT) |}])
        ∧ stat fs2 (root ++ ["d"]) = None).
Proof.
  intros Hroot root [Hdir Hempty] mk put rm ok.
  assert (Hd : resolve (filepath.Join (Server_path sv) "d") = root ++ ["d"])
    by (by rewrite resolve_Join by auto using entry_names_d).
  assert (Hdf : resolve (filepath.Join (Server_path sv) "d/f") = root ++ ["d"; "f"])
    by (by rewrite resolve_Join by auto using entry_names_d_f).
  assert (Hd0 : root ++ ["d"] ≠ []) by (by destruct root).
  assert (Hdf0 : root ++ ["d"; "f"] ≠ []) by (by destruct root).
  assert (Hpd : parent (root ++ ["d"]) = root) by apply parent_snoc.
  assert (Hpdf : parent (root ++ ["d"; "f"]) = root ++ ["d"]).
  { change (root ++ ["d"; "f"]) with (root ++ ["d"] ++ ["f"]).
    rewrite app_assoc. apply parent_snoc. }
  assert (Hfree_d : fs !! (root ++ ["d"]) = None).
  { apply Hempty; [by apply prefix_app_r|].
    intros Heq. apply (f_equal length) in Heq. rewrite length_app in Heq. simpl in Heq. lia. }
  assert (Hfree_df : fs !! (root ++ ["d"; "f"]) = None).
  { apply Hempty; [by apply prefix_app_r|].
    intros Heq. apply (f_equal length) in Heq. rewrite length_app in Heq. simpl in Heq. lia. }
  assert (Hne : root ++ ["d"] ≠ root ++ ["d"; "f"]).
  { intros Heq. apply app_inv_head in Heq. discriminate. }
  assert (Hmk : ApplyRequest sv mk fs = (<[root ++ ["d"] := Dir]> fs, ok, None)).
  { rewrite ApplyRequest_Mkdir by done.
    change (Request_Path mk) with "d".
    by rewrite (Mkdir_fresh _ _ (root ++ ["d"])) by (done || by rewrite Hpd). }
  assert (Hrm : ∀ fs0, ApplyRequest sv rm fs0 = (outside (root ++ ["d"]) fs0, ok, None)).
  { intros fs0. rewrite ApplyRequest_Remove by done.
    change (Request_Path rm) with "d".
    by rewrite (RemoveAll_nonroot _ _ (root ++ ["d"])) by done. }
  split.
  - eexists. split; [|split].
    + unfold applyAll. rewrite Hmk.
      rewrite ApplyRequest_Create by done.
      change (Request_Path put) with "d/f".
      rewrite (WriteFile_new _ _ _ (root ++ ["d"; "f"])); [| done | done | | ].
      * simpl. by rewrite Hrm.
      * rewrite Hpdf, stat_nonroot by done. apply lookup_insert_eq.
      * by rewrite lookup_insert_ne.
    + rewrite stat_nonroot by done. by apply outside_lookup_below.
    + rewrite stat_nonroot by done. apply outside_lookup_below.
      by apply prefix_app, prefix_cons, prefix_nil.
  - eexists. split.
    + unfold applyAll. rewrite Hmk, Hrm.
      rewrite ApplyRequest_Create by done.
      change (Request_Path put) with "d/f".
      rewrite (WriteFile_orphan _ _ _ (root ++ ["d"; "f"])); [done..|].
      rewrite Hpdf, stat_nonroot by done. by apply outside_lookup_below.
    + rewrite stat_nonroot by done. by apply outside_lookup_below.
Qed.
End ordering.

Section client_facts.
Context `{Wire} {W : Type} `{!World W}.

Lemma sendLoop_unfold req rest st :
  sendLoop (req :: rest) st =
    let '(r, w) := Call req (world st) in
    let st1 := {| world := w; log := log st ++ [Sent req] |} in
    let resp := match r with inr reply => reply | inl _ => zeroResponse end in
    if bool_decide (Response_Type resp = responseErr) then
      (Some (errorString ("Sending request to server '" +:+ Request_String req
                            +:+ "' failed: " +:+ Response_String resp)), st1)
    else sendLoop rest st1.
Proof.
  simpl. unfold bind, perform, record, ret. simpl.
  destruct (Call req (world st)) as [r w]. simpl.
  by case_bool_decide.
Qed.

Lemma sendRequests_unfold c reqs st :
  reqs ≠ [] →
  sendRequests c reqs st =
    let '(err, w) := Dial (Client_server c) (world st) in
    let st1 := {| world := w; log := log st ++ [Connect (bool_decide (err = None))] |} in
    match err with
    | Some e => (Some (Wrap e "Connection to server failed"), st1)
    | None =>
        let '(res, st2) := sendLoop reqs st1 in
        (res, {| world := connClose (world st2); log := log st2 ++ [Close] |})
    end.
Proof.
  intros Hne. unfold sendRequests.
  rewrite bool_decide_eq_false_2 by (by destruct reqs).
  unfold serverConnect, bind, perform, perform_, record, ret. simpl.
  destruct (Dial (Client_server c) (world st)) as [[e|] w]; simpl; [done|].
  by destruct (sendLoop reqs _) as [res st2].
Qed.

Lemma sendLoop_None reqs st st' :
  sendLoop reqs st = (None, st') → log st' = log st ++ (Sent <$> reqs).
Proof.
  revert st. induction reqs as [|req rest IH]; intros st.
  - intros [= <-]. by rewrite app_nil_r.
  - rewrite sendLoop_unfold. destruct (Call req (world st)) as [r w].
    simpl. case_bool_decide; [done|]. intros Hrest%IH.
    rewrite Hrest. simpl. by rewrite <- app_assoc.
Qed.

Lemma sendRequests_None c reqs st st' :
  sendRequests c reqs st = (None, st') → log st' = log st ++ flush_events reqs.
Proof.
  destruct (decide (reqs = [])) as [->|Hne].
  - intros [= <-]. simpl. by rewrite app_nil_r.
  - rewrite sendRequests_unfold by done.
    destruct (Dial (Client_server c) (world st)) as [[e|] w]; [done|].
    simpl. destruct (sendLoop reqs _) as [res st2] eqn:Hloop.
    intros [= -> <-]. apply sendLoop_None in Hloop. simpl in *.
    rewrite Hloop. destruct reqs; [done|]. simpl.
    rewrite <- !app_assoc. done.
Qed.

Lemma sendLoop_all_calls_fail reqs st :
  responseErr ≠ 0 → all_calls_fail reqs (world st) →
  ∃ st', sendLoop reqs st = (None, st').
Proof.
  intros Hzero. revert st. induction reqs as [|req rest IH]; intros st Hfail.
  - by eexists.
  - rewrite sendLoop_unfold. simpl in Hfail.
    destruct (Call req (world st)) as [[e|resp] w]; [|done]. simpl.
    rewrite bool_decide_eq_false_2 by done. by apply IH.
Qed.

(** C10.  Sending an empty list of requests returns [nil] at once: the
    world is not touched and no connection is attempted. *)
Theorem sendRequests_nothing_to_send c st : sendRequests c [] st = (None, st).
Proof. done. Qed.

(** C3, as the code has it.  When the status of an error response is not
    the zero value of the status field, a batch whose every call fails in
    transport after the connection was made is reported as sent:
    [sendRequests] goes through the whole batch and returns [nil]. *)
Theorem sendRequests_call_failure_unnoticed c reqs st w :
  responseErr ≠ 0 →
  reqs ≠ [] →
  Dial (Client_server c) (world st) = (None, w) →
  all_calls_fail reqs w →
  ∃ st', sendRequests c reqs st = (None, st')
         ∧ log st' = log st ++ flush_events reqs.
Proof.
  intros Hzero Hne Hdial Hfail.
  destruct (sendLoop_all_calls_fail reqs
              {| world := w; log := log st ++ [Connect true] |} Hzero Hfail)
    as [st2 Hloop].
  assert (Hsend : sendRequests c reqs st
                  = (None, {| world := connClose (world st2); log := log st2 ++ [Close] |})).
  { rewrite sendRequests_unfold, Hdial by done. simpl. by rewrite Hloop. }
  eexists. split; [done|]. by eapply sendRequests_None.
Qed.
End client_facts.

Section watcher_facts.
Context `{Wire} {W : Type} `{!World W}.

Lemma newCreateRequest_fails path name st err w :
  ReadFile path (world st) = (inl err, w) →
  newCreateRequest path name st = (inl err, {| world := w; log := log st |}).
Proof.
  intros Hread. unfold newCreateRequest, bind, perform, ret. by rewrite Hread.
Qed.

Lemma handleEvent_read_fails c event relPath st w1 w2 err :
  Rel (Client_path c) (fsnotify.Name event) = inr relPath →
  reads_content event (world st) w1 →
  ReadFile (fsnotify.Name event) w1 = (inl err, w2) →
  handleEvent c event st = ((None, Some err), {| world := w2; log := log st |}).
Proof.
  intros Hrel Hreads Hread. unfold handleEvent. rewrite Hrel.
  destruct Hreads as [r w1 Hcreate Hstat Hr | Hcreate Hremove Hrename Hwrite].
  - rewrite Hcreate. unfold bind at 1. unfold isDirectory, bind, perform, ret.
    rewrite Hstat. simpl.
    destruct r as [e|[]]; [|done|];
      by rewrite (newCreateRequest_fails _ _ _ err w2).
  - rewrite Hcreate, Hremove, Hrename, Hwrite. unfold bind.
    rewrite (newCreateRequest_fails _ _ _ err w2) by done.
    by destruct st.
Qed.

(** C8.  When handling a creation or write event comes to read the file
    and the read fails, [handleEvent] returns the error of the read and no
    request, and [watcherLoop] returns that error, wrapped, without going
    on to the later rounds and without sending anything. *)
Theorem watcherLoop_stops_on_read_failure c event relPath st w1 w2 err :
  Rel (Client_path c) (fsnotify.Name event) = inr relPath →
  reads_content event (world st) w1 →
  ReadFile (fsnotify.Name event) w1 = (inl err, w2) →
  handleEvent c event st = ((None, Some err), {| world := w2; log := log st |})
  ∧ ∀ rounds reqs,
      watcherLoop c (RecvEvent (Some event) :: rounds) reqs st
      = (Returned (Some (Wrap err "Handling file event failed")),
         {| world := w2; log := log st |}).
Proof.
  intros Hrel Hreads Hread.
  pose proof (handleEvent_read_fails _ _ _ _ _ _ _ Hrel Hreads Hread) as Hev.
  split; [done|]. intros rounds reqs. simpl. unfold bind. by rewrite Hev.
Qed.
End watcher_facts.

Section batching.



End batching.

Section sync_facts.
Context `{Wire} {W : Type} `{!World W}.








End sync_facts.

(** ** The front ends *)

(** C4, as the code has it.  With flags that do not pass the check, the
    client's [main] prints the defaults and exits with status 0, where the
    server's [main] exits with status 1. *)
Theorem client_main_usage_exits_zero directory address port :
  invalidFlags directory address port = true →
  client_main directory address port = UsageExit 0
  ∧ server_main directory address port = UsageExit 1.
Proof. intros Hbad. unfold client_main, server_main. by rewrite Hbad. Qed.

(** ** The statements at work *)

Lemma client_main_usage_exits_zero_witness :
  client_main "" "localhost" 12345 = UsageExit 0
  ∧ server_main "" "localhost" 12345 = UsageExit 1.
Proof. apply client_main_usage_exits_zero. reflexivity. Defined.

Lemma ApplyRequest_rejects_invalid_path_witness :
  ApplyRequest (H := iotaWire) srv (putFile (H := iotaWire) "a/../b" []) srv_fs
  = (srv_fs, {| Response_Type := 1; Response_Message := "Erroneous path value: 'a/../b'" |}, None).
Proof.
  apply (ApplyRequest_rejects_invalid_path (H := iotaWire) srv
           (putFile (H := iotaWire) "a/../b" []) srv_fs
           (errorString "Erroneous path value: 'a/../b'")).
  reflexivity.
Defined.

Lemma ApplyRequest_unhandled_kind_witness :
  ApplyRequest (H := iotaWire) srv
    {| Request_Type := 7; Request_Path := "x"; Request_Data := [] |} srv_fs
  = (srv_fs, {| Response_Type := 1; Response_Message := "Unhandled request: 7 x" |}, None).
Proof.
  apply (ApplyRequest_unhandled_kind (H := iotaWire) srv
           {| Request_Type := 7; Request_Path := "x"; Request_Data := [] |} srv_fs);
    [reflexivity|simpl; lia..].
Defined.

Lemma applyAll_wf `{Wire} sv reqs fs : fsinv.wf fs → fsinv.wf (applyAll sv reqs fs).1.
Proof.
  revert fs. induction reqs as [|req rest IH]; intros fs Hwf; [done|].
  simpl. pose proof (ApplyRequest_wf sv req fs Hwf) as Hstep.
  destruct (ApplyRequest sv req fs) as [[fs1 resp] e]. simpl in Hstep.
  specialize (IH fs1 Hstep). by destruct (applyAll sv rest fs1).
Qed.

Lemma srv_fs_wf : fsinv.wf srv_fs.
Proof.
  unfold srv_fs. rewrite <- insert_empty.
  apply wf_insert; [apply wf_empty|done|done|by left].
Qed.

Lemma srv_fs_empty_dir : fsinv.empty_dir srv_fs (os.resolve (Server_path srv)).
Proof.
  split; [done|]. intros p _ Hp. change (os.resolve (Server_path srv)) with ["srv"] in Hp.
  unfold srv_fs. by apply lookup_singleton_ne.
Qed.

Lemma ApplyRequest_remove_witness :
  (∃ fs',
      ApplyRequest (H := iotaWire) srv (newRemoveRequest (H := iotaWire) "d") srv_fs_d
      = (fs', {| Response_Type := 0; Response_Message := "" |}, None)
      ∧ (∀ p, ["srv"; "d"] `prefix_of` p → os.stat fs' p = None)
      ∧ (∀ p, ¬ ["srv"; "d"] `prefix_of` p → os.stat fs' p = os.stat srv_fs_d p)
      ∧ (os.stat srv_fs_d ["srv"; "d"] = None → fs' = srv_fs_d))
  ∧ ApplyRequest (H := iotaWire) srv (newRemoveRequest (H := iotaWire) "nonexistent") srv_fs
    = (srv_fs, {| Response_Type := 0; Response_Message := "" |}, None).
Proof.
  split.
  - apply (ApplyRequest_remove (H := iotaWire) srv
             (newRemoveRequest (H := iotaWire) "d") srv_fs_d).
    + apply (applyAll_wf (H := iotaWire)), srv_fs_wf.
    + reflexivity.
    + reflexivity.
    + vm_compute. discriminate.
  - destruct (ApplyRequest_remove (H := iotaWire) srv
                (newRemoveRequest (H := iotaWire) "nonexistent") srv_fs)
      as (fs' & Happly & _ & _ & Hsame).
    + apply srv_fs_wf.
    + reflexivity.
    + reflexivity.
    + vm_compute. discriminate.
    + rewrite Happly, Hsame; reflexivity.
Defined.

Lemma ApplyRequest_order_matters_witness :
  (∃ fs1,
      applyAll (H := iotaWire) srv
        [newMkdirRequest (H := iotaWire) "d"; putFile (H := iotaWire) "d/f" ["x"%byte];
         newRemoveRequest (H := iotaWire) "d"] srv_fs
      = (fs1, [okResponse (H := iotaWire); okResponse (H := iotaWire); okResponse (H := iotaWire)])
      ∧ os.stat fs1 ["srv"; "d"] = None
      ∧ os.stat fs1 ["srv"; "d"; "f"] = None)
  ∧ (∃ fs2,
        applyAll (H := iotaWire) srv
          [newMkdirRequest (H := iotaWire) "d"; newRemoveRequest (H := iotaWire) "d";
           putFile (H := iotaWire) "d/f" ["x"%byte]] srv_fs
        = (fs2, [okResponse (H := iotaWire); okResponse (H := iotaWire);
                 {| Response_Type := 1;
                    Response_Message := "open /srv/d/f: no such file or directory" |}])
        ∧ os.stat fs2 ["srv"; "d"] = None).
Proof.
  apply (ApplyRequest_order_matters (H := iotaWire) srv srv_fs ["x"%byte]).
  - reflexivity.
  - apply srv_fs_empty_dir.
Defined.

Lemma sendRequests_call_failure_unnoticed_witness :
  ∃ st', sendRequests (H := iotaWire) (World0 := simWorld (H := iotaWire)) box
           [newMkdirRequest (H := iotaWire) "d"; putFile (H := iotaWire) "d/f" []]
           (start dead_link)
         = (None, st')
         ∧ log st' = [Connect true; Sent (newMkdirRequest (H := iotaWire) "d");
                      Sent (putFile (H := iotaWire) "d/f" []); Close].
Proof.
  apply (sendRequests_call_failure_unnoticed (H := iotaWire)
           (World0 := simWorld (H := iotaWire)) box
           [newMkdirRequest (H := iotaWire) "d"; putFile (H := iotaWire) "d/f" []]
           (start dead_link) dead_link).
  - simpl. lia.
  - discriminate.
  - reflexivity.
  - vm_compute. exact I.
Defined.

Lemma watcherLoop_stops_on_read_failure_witness :
  handleEvent (H := iotaWire) (World0 := simWorld (H := iotaWire)) box gone (start dead_link)
  = ((None, Some (PathError "open" "/home/u/box/gone" ENOENT)), start dead_link)
  ∧ ∀ rounds reqs,
      watcherLoop (H := iotaWire) (World0 := simWorld (H := iotaWire)) box
        (RecvEvent (Some gone) :: rounds) reqs (start dead_link)
      = (Returned (Some (Wrap (PathError "open" "/home/u/box/gone" ENOENT)
                           "Handling file event failed")),
         start dead_link).
Proof.
  apply (watcherLoop_stops_on_read_failure (H := iotaWire)
           (World0 := simWorld (H := iotaWire)) box gone "gone" (start dead_link)
           dead_link dead_link (PathError "open" "/home/u/box/gone" ENOENT)).
  - vm_compute. reflexivity.
  - apply (reads_created (World0 := simWorld (H := iotaWire)) gone dead_link
             (inl (PathError "stat" "/home/u/box/gone" ENOENT)) dead_link).
    + reflexivity.
    + reflexivity.
    + discriminate.
  - reflexivity.
Defined.




(** ** The server's start *)

Section start_facts.
Import os fsinv.
Implicit Types (fs : FS) (p k q s : list string).

(** In a well-formed file system, what lies above an entry is a
    directory. *)
Lemma wf_ancestor fs q s n :
  wf fs → fs !! (q ++ s) = Some n → s ≠ [] → stat fs q = Some Dir.
Proof.
  intros Hwf. revert n. induction s as [|x s IH] using rev_ind; intros n Hk Hs; [done|].
  apply Hwf in Hk as [_ Hdir]. rewrite app_assoc, parent_snoc in Hdir.
  destruct (decide (s = [])) as [->|Hne]; [by rewrite app_nil_r in Hdir|].
  rewrite stat_nonroot in Hdir by (by destruct q, s). by eapply IH.
Qed.

Lemma children_lookup fs dir k n :
  children fs dir !! k = Some n ↔ fs !! k = Some n ∧ k ≠ [] ∧ parent k = dir.
Proof. unfold children. by rewrite map_lookup_filter_Some. Qed.

Lemma childless_empty fs dir :
  wf fs → size (children fs dir) = 0%nat →
  ∀ k, dir `prefix_of` k → k ≠ dir → fs !! k = None.
Proof.
  intros Hwf Hsize%map_size_empty_iff k [s ->] Hne.
  destruct s as [|x s]; [by rewrite app_nil_r in Hne|].
  assert (Hchild : fs !! (dir ++ [x]) = None).
  { destruct (fs !! (dir ++ [x])) as [n|] eqn:Hx; [|done].
    assert (children fs dir !! (dir ++ [x]) = Some n) as Hin.
    { apply children_lookup. split; [done|]. split; [by destruct dir|apply parent_snoc]. }
    by rewrite Hsize, lookup_empty in Hin. }
  destruct (fs !! (dir ++ x :: s)) as [n|] eqn:Hk; [|done].
  destruct (decide (s = [])) as [->|Hs]; [congruence|].
  change (dir ++ x :: s) with (dir ++ [x] ++ s) in Hk. rewrite app_assoc in Hk.
  eapply wf_ancestor in Hk; [|done..].
  rewrite stat_nonroot in Hk by (by destruct dir). congruence.
Qed.

Lemma Mkdir_None name fs fs' :
  Mkdir name fs = (fs', None) →
  resolve name ≠ [] ∧ stat fs (parent (resolve name)) = Some Dir
  ∧ fs !! resolve name = None ∧ fs' = <[resolve name := Dir]> fs.
Proof.
  unfold Mkdir. destruct (resolve name) as [|x p] eqn:Hp; [done|].
  destruct (parent_error fs (x :: p)) eqn:Hpar; [done|].
  destruct (fs !! (x :: p)) eqn:Hk; [done|]. intros [= <-].
  auto using parent_error_None.
Qed.

Lemma Mkdir_Some name fs fs' err :
  Mkdir name fs = (fs', Some err) → fs' = fs.
Proof.
  unfold Mkdir. destruct (resolve name) as [|x p]; [by intros [= <-]|].
  destruct (parent_error fs (x :: p)); [by intros [= <-]|].
  destruct (fs !! (x :: p)); by intros [= <-].
Qed.

Lemma checkOrMakeEmptyDirectory_ok path fs fs' :
  wf fs →
  checkOrMakeEmptyDirectory path fs = (fs', None) →
  wf fs'
  ∧ empty_dir fs' (resolve path)
  ∧ ∀ p, p ≠ resolve path → stat fs' p = stat fs p.
Proof.
  intros Hwf. unfold checkOrMakeEmptyDirectory.
  destruct (stat fs (resolve path)) as [[|content]|] eqn:Hstat; [| done |].
  - case_bool_decide as Hsize; [|done]. intros [= <-].
    split; [done|]. split; [|done]. split; [done|]. by apply childless_empty.
  - intros Hmk. pose proof (Mkdir_wf path fs Hwf) as Hwf'. rewrite Hmk in Hwf'.
    apply Mkdir_None in Hmk as (Hp & Hpar & Hfree & ->).
    split; [done|]. split; [split|].
    + rewrite stat_nonroot by done. apply lookup_insert_eq.
    + intros k Hpre Hne. rewrite lookup_insert_ne by done.
      by eapply wf_absent_below.
    + intros p Hne. destruct (decide (p = [])) as [->|Hp0]; [done|].
      rewrite !stat_nonroot by done. by rewrite lookup_insert_ne.
Qed.
End start_facts.

Section start_claims.
Import os fsinv filepath.
Implicit Types (fs : FS) (p k : list string).

Lemma fold_Clean s :
  rooted s = true →
  fold_left (clean_step true) (elements (Clean s)) []
  = fold_left (clean_step true) (elements s) [].
Proof.
  intros Hs. pose proof (resolve_Clean s Hs) as Heq. unfold resolve in Heq.
  apply (f_equal (@rev _)) in Heq. by rewrite !rev_involutive in Heq.
Qed.

Lemma Clean_rooted s : rooted s = true → rooted (Clean s) = true.
Proof.
  intros Hs. unfold Clean. rewrite Hs.
  by rewrite bool_decide_eq_false_2 by (by destruct s).
Qed.

(** Cleaning a cleaned rooted path changes nothing. *)
Lemma Clean_Clean s : rooted s = true → Clean (Clean s) = Clean s.
Proof.
  intros Hs. pose proof (Clean_rooted s Hs) as Hc.
  unfold Clean at 1. rewrite Hc, fold_Clean by done.
  rewrite bool_decide_eq_false_2 by (by destruct (Clean s)).
  unfold Clean. rewrite Hs. by rewrite bool_decide_eq_false_2 by (by destruct s).
Qed.

Lemma Join_slash path : Join "/" path = Clean ("/" +:+ "/" +:+ path).
Proof. unfold Join. by rewrite bool_decide_eq_false_2. Qed.

Lemma Abs_rooted path : rooted (Abs path) = true.
Proof.
  unfold Abs. destruct (rooted path) eqn:Hp; [by apply Clean_rooted|].
  rewrite Join_slash. by apply Clean_rooted.
Qed.

Lemma Abs_clean path : Clean (Abs path) = Abs path.
Proof.
  unfold Abs. destruct (rooted path) eqn:Hp; [by apply Clean_Clean|].
  rewrite Join_slash. by apply Clean_Clean.
Qed.

Lemma resolve_Abs path : resolve (Abs path) = resolve path.
Proof.
  unfold Abs. destruct (rooted path) eqn:Hp; [by apply resolve_Clean|].
  rewrite Join_slash, resolve_Clean by done.
  unfold resolve. by rewrite (elements_app_sep "/" path).
Qed.

(** X1.  When [checkOrMakeEmptyDirectory] returns [nil] for a path in its
    shortest form, the path denotes a directory that holds nothing, nothing
    else was touched, and the file system is still well formed. *)
Theorem checkOrMakeEmptyDirectory_gives_empty_dir path fs fs' :
  Clean path = path →
  wf fs →
  checkOrMakeEmptyDirectory path fs = (fs', None) →
  wf fs'
  ∧ empty_dir fs' (resolve path)
  ∧ ∀ p, p ≠ resolve path → stat fs' p = stat fs p.
Proof. intros _. apply checkOrMakeEmptyDirectory_ok. Qed.

(** X2.  For a path in its shortest form, [checkOrMakeEmptyDirectory]
    fails in three ways, and never changes the file system when it fails:
    a file is at the path; a directory that is not empty is at the path;
    nothing is at the path and there is no directory to hold it, which is
    the error of [os.Mkdir]. *)
Theorem checkOrMakeEmptyDirectory_failures path fs fs' err :
  Clean path = path →
  checkOrMakeEmptyDirectory path fs = (fs', Some err) →
  fs' = fs
  ∧ ((∃ content, stat fs (resolve path) = Some (File content)
                 ∧ err = errorString (path +:+ ": Not a directory"))
     ∨ (stat fs (resolve path) = Some Dir
        ∧ (∃ k n, fs !! k = Some n ∧ k ≠ [] ∧ parent k = resolve path)
        ∧ err = errorString (path +:+ ": Directory is not empty"))
     ∨ (stat fs (resolve path) = None
        ∧ stat fs (parent (resolve path)) ≠ Some Dir
        ∧ ∃ e, (e = ENOENT ∨ e = ENOTDIR) ∧ err = PathError "mkdir" path e)).
Proof.
  intros _. unfold checkOrMakeEmptyDirectory.
  destruct (stat fs (resolve path)) as [[|content]|] eqn:Hstat.
  - case_bool_decide as Hsize; [done|]. intros [= <- <-]. split; [done|].
    right. left. split; [done|]. split; [|done].
    destruct (map_choose (children fs (resolve path))) as (k & n & Hk).
    { intros Hempty. apply Hsize. by rewrite Hempty, map_size_empty. }
    apply children_lookup in Hk. by exists k, n.
  - intros [= <- <-]. split; [done|]. left. by exists content.
  - intros Hmk. split; [by eapply Mkdir_Some|]. right. right. split; [done|].
    revert Hmk. unfold Mkdir.
    destruct (resolve path) as [|x p] eqn:Hp; [done|].
    rewrite stat_nonroot in Hstat by done.
    unfold parent_error.
    destruct (stat fs (parent (x :: p))) as [[|c]|]; rewrite ?Hstat; intros [= <- <-];
      (split; [done|]); eexists; eauto.
Qed.

Lemma NewServer_ok tlsConfig address port path fs fs' sv :
  wf fs →
  NewServer tlsConfig address port path fs = (fs', inr sv) →
  Server_address sv = address ∧ Server_port sv = port
  ∧ rooted (Server_path sv) = true
  ∧ Clean (Server_path sv) = Server_path sv
  ∧ resolve (Server_path sv) = resolve path
  ∧ empty_dir fs' (resolve (Server_path sv))
  ∧ wf fs'.
Proof.
  intros Hwf. unfold NewServer.
  destruct (checkOrMakeEmptyDirectory path fs) as [fs1 [e|]] eqn:Hcheck; [done|].
  destruct tlsConfig as [e|]; [done|]. intros [= <- <-]. simpl.
  apply checkOrMakeEmptyDirectory_ok in Hcheck as (Hwf' & Hempty & _); [|done].
  rewrite resolve_Abs.
  split; [done|]. split; [done|]. split; [apply Abs_rooted|].
  split; [apply Abs_clean|]. split; [done|]. by split.
Qed.


(** X3.  A server that [NewServer] returns for a path in its shortest form
    has an absolute, cleaned path that denotes the same directory as the
    path given, and that directory holds nothing; the file system is still
    well formed. *)
Theorem NewServer_serves_empty_dir tlsConfig address port path fs fs' sv :
  Clean path = path →
  wf fs →
  NewServer tlsConfig address port path fs = (fs', inr sv) →
  Server_address sv = address ∧ Server_port sv = port
  ∧ rooted (Server_path sv) = true
  ∧ Clean (Server_path sv) = Server_path sv
  ∧ resolve (Server_path sv) = resolve path
  ∧ empty_dir fs' (resolve (Server_path sv))
  ∧ wf fs'.
Proof. intros _. apply NewServer_ok. Qed.

(** X4.  When the certificate cannot be loaded, [NewServer] fails with the
    wrapped error, after the directory was checked or made: a directory it
    made, here for a path in its shortest form, stays. *)
Theorem NewServer_tls_failure_keeps_directory err address port path fs :
  Clean path = path →
  wf fs →
  stat fs (resolve path) = None →
  parent_error fs (resolve path) = None →
  NewServer (Some err) address port path fs
  = (<[resolve path := Dir]> fs,
     inl (withMessage err "Creating TLS config failed"))
  ∧ stat (<[resolve path := Dir]> fs) (resolve path) = Some Dir.
Proof.
  intros _ Hwf Hstat Hpar.
  assert (Hp : resolve path ≠ []) by (intros Heq; by rewrite Heq in Hstat).
  unfold NewServer, checkOrMakeEmptyDirectory. rewrite Hstat.
  rewrite (Mkdir_fresh path fs (resolve path));
    [|done|done|by apply parent_error_None|by rewrite <- stat_nonroot].
  split; [done|]. rewrite stat_nonroot by done. apply lookup_insert_eq.
Qed.

(** X5.  When [main] of the server, given a directory in its shortest form,
    gets to listen, the flags were valid, the server has the address and
    the port of the flags, and its path is absolute and denotes the
    directory of the flag, which holds nothing. *)
Theorem server_run_listening tlsConfig directory address port fs fs' sv :
  Clean directory = directory →
  wf fs →
  server_run tlsConfig directory address port fs = (fs', Listening sv) →
  directory ≠ "" ∧ address ≠ "" ∧ (1 ≤ port ≤ 65535)%Z
  ∧ Server_address sv = address ∧ Server_port sv = port
  ∧ rooted (Server_path sv) = true
  ∧ resolve (Server_path sv) = resolve directory
  ∧ empty_dir fs' (resolve (Server_path sv)).
Proof.
  intros _ Hwf. unfold server_run, server_main, invalidFlags.
  repeat case_bool_decide; simpl; try done.
  destruct (NewServer _ _ _ _ _) as [fs1 [e|sv1]] eqn:Hnew; [done|].
  intros [= <- <-].
  apply NewServer_ok in Hnew as (Ha & Hp & Hr & _ & Hres & Hempty & _); [|done].
  destruct Hempty as [Hdir Hnone].
  repeat split; try done; try lia.
  rewrite Hp. unfold uint16. apply Z.mod_small. lia.
Qed.
End start_claims.

(** ** What a request can touch *)

Section apply_facts.
Context `{Wire}.
Import os fsinv.
Implicit Types (fs : FS) (p k : list string).

Lemma outside_outside fs p : outside p (outside p fs) = outside p fs.
Proof.
  apply map_eq. intros k. destruct (decide (p `prefix_of` k)) as [Hpre|Hpre].
  - by rewrite !outside_lookup_below.
  - by rewrite !outside_lookup_other.
Qed.

Lemma stat_insert_ne fs p n k : k ≠ p → stat (<[p := n]> fs) k = stat fs k.
Proof.
  intros Hne. destruct (decide (k = [])) as [->|Hk]; [done|].
  rewrite !stat_nonroot by done. by rewrite lookup_insert_ne.
Qed.

Lemma WriteFile_None name data fs fs' :
  WriteFile name data fs = (fs', None) →
  resolve name ≠ [] ∧ stat fs (parent (resolve name)) = Some Dir
  ∧ fs !! resolve name ≠ Some Dir ∧ fs' = <[resolve name := File data]> fs.
Proof.
  unfold WriteFile. destruct (resolve name) as [|x p] eqn:Hp; [done|].
  destruct (parent_error fs (x :: p)) eqn:Hpar; [done|].
  destruct (fs !! (x :: p)) as [[|c]|] eqn:Hk; [done|..]; intros [= <-];
    auto using parent_error_None.
Qed.

Lemma WriteFile_Some name data fs fs' err :
  WriteFile name data fs = (fs', Some err) → fs' = fs.
Proof.
  unfold WriteFile. destruct (resolve name) as [|x p]; [by intros [= <-]|].
  destruct (parent_error fs (x :: p)); [by intros [= <-]|].
  destruct (fs !! (x :: p)) as [[|c]|]; by intros [= <-].
Qed.

Lemma response_ok_inv (err : option error) :
  from_option errResponse okResponse err = okResponse → err = None.
Proof.
  destruct err as [e|]; [|done]. intros [= Hty _].
  by destruct response_kinds_ne.
Qed.

Lemma response_err_inv (err : option error) :
  Response_Type (from_option errResponse okResponse err) = responseErr →
  ∃ e, err = Some e.
Proof.
  destruct err as [e|]; [by exists e|]. simpl. intros Hty.
  by destruct response_kinds_ne.
Qed.

(** X6.  Making a directory is exclusive: when something is already at the
    target, the request is answered with the error [file exists] and
    nothing changes. *)
Theorem ApplyRequest_Mkdir_exclusive sv req fs n :
  wf fs →
  validateRequest sv req = None →
  Request_Type req = requestMkdir →
  stat fs (target sv req) = Some n →
  ApplyRequest sv req fs
  = (fs, {| Response_Type := responseErr;
            Response_Message :=
              "mkdir " +:+ filepath.Join (Server_path sv) (Request_Path req)
                +:+ ": file exists" |}, None).
Proof.
  intros Hwf Hv Ht Hn. rewrite ApplyRequest_Mkdir by done.
  unfold Mkdir, target in *.
  destruct (resolve _) as [|x p] eqn:Hp; [done|].
  rewrite stat_nonroot in Hn by done.
  destruct (Hwf _ _ Hn) as [_ Hdir]. unfold parent_error. by rewrite Hdir, Hn.
Qed.

(** X7.  After a create request that is answered ok, the target is a file
    with exactly the data of the request, whatever file was there before,
    and every other entry is as it was. *)
Theorem ApplyRequest_Create_stores sv req fs fs' e :
  validateRequest sv req = None →
  Request_Type req = requestCreate →
  ApplyRequest sv req fs = (fs', okResponse, e) →
  stat fs' (target sv req) = Some (File (Request_Data req))
  ∧ ∀ p, p ≠ target sv req → stat fs' p = stat fs p.
Proof.
  intros Hv Ht. rewrite ApplyRequest_Create by done.
  destruct (WriteFile _ _ _) as [fs1 err] eqn:Hwrite. intros [= <- Hresp _].
  apply response_ok_inv in Hresp as ->.
  apply WriteFile_None in Hwrite as (Hp & _ & _ & ->). fold (target sv req) in *.
  split.
  - rewrite stat_nonroot by done. apply lookup_insert_eq.
  - intros p Hne. by apply stat_insert_ne.
Qed.

(** X8.  A request that is answered with an error changes nothing, as long
    as its target is not the root of the whole file system. *)
Theorem ApplyRequest_error_changes_nothing sv req fs fs' resp e :
  ApplyRequest sv req fs = (fs', resp, e) →
  Response_Type resp = responseErr →
  target sv req ≠ [] →
  fs' = fs.
Proof.
  intros Happly Hresp Htarget. revert Happly. unfold ApplyRequest.
  destruct (validateRequest sv req); [by intros [= <-]|].
  repeat case_bool_decide.
  - destruct (Mkdir _ _) as [fs1 [err|]] eqn:Hop; intros [= <- <- _].
    + by eapply Mkdir_Some.
    + simpl in Hresp. by destruct response_kinds_ne.
  - destruct (WriteFile _ _ _) as [fs1 [err|]] eqn:Hop; intros [= <- <- _].
    + by eapply WriteFile_Some.
    + simpl in Hresp. by destruct response_kinds_ne.
  - rewrite (RemoveAll_nonroot _ _ (target sv req)) by done.
    intros [= <- <- _]. simpl in Hresp. by destruct response_kinds_ne.
  - by intros [= <-].
Qed.

(** X9.  Removing twice is removing once: the second request is answered ok
    and leaves the file system as the first one left it. *)
Theorem ApplyRequest_Remove_twice sv req fs :
  validateRequest sv req = None →
  Request_Type req = requestRemove →
  target sv req ≠ [] →
  applyAll sv [req; req] fs = ((ApplyRequest sv req fs).1.1, [okResponse; okResponse]).
Proof.
  intros Hv Ht Htarget.
  assert (Hrm : ∀ fs0, ApplyRequest sv req fs0 = (outside (target sv req) fs0, okResponse, None)).
  { intros fs0. rewrite ApplyRequest_Remove by done.
    by rewrite (RemoveAll_nonroot _ _ (target sv req)). }
  unfold applyAll. rewrite !Hrm. simpl. by rewrite outside_outside.
Qed.
End apply_facts.

Section confinement.
Import filepath.

Lemma plain_dotdot : plain ".." = true.
Proof. done. Qed.

(** In a relative path, [Clean]'s loop holds [..] elements followed by names
    of entries. *)
Lemma fold_clean_step_relative l stack :
  Forall (λ e, plain e = true) l →
  (∃ k names, stack = rev names ++ replicate k ".." ∧ Forall entry_name names) →
  ∃ k names, fold_left (clean_step false) l stack = rev names ++ replicate k ".."
             ∧ Forall entry_name names.
Proof.
  intros Hl. revert stack. induction Hl as [|e l He Hl IH]; intros stack Hstack; [done|].
  simpl. apply IH. destruct Hstack as (k & names & -> & Hnames).
  unfold clean_step. repeat case_bool_decide; subst; try by exists k, names.
  - destruct names as [|n names _] using rev_ind.
    + simpl. destruct k as [|k]; [by exists 1%nat, []|].
      simpl. by exists (S (S k)), [].
    + rewrite rev_app_distr. simpl.
      apply Forall_app in Hnames as [Hnames Hn%Forall_inv].
      rewrite bool_decide_eq_false_2 by (by destruct Hn as (_ & _ & ? & _)).
      by exists k, names.
  - exists k, (names ++ [e]). rewrite rev_app_distr. split; [done|].
    apply Forall_app. split; [done|]. by repeat constructor.
Qed.

Lemma rev_replicate {A} (x : A) k : rev (replicate k x) = replicate k x.
Proof.
  induction k as [|k IH]; [done|]. simpl. rewrite IH.
  clear IH. induction k as [|k IH]; [done|]. simpl. by rewrite IH.
Qed.

Lemma Forall_plain_shape k names :
  Forall entry_name names →
  Forall (λ e, plain e = true) (replicate k ".." ++ names).
Proof.
  intros Hnames. apply Forall_app. split.
  - apply Forall_replicate, plain_dotdot.
  - by apply entry_name_plain.
Qed.

(** The elements of a path other than [.] that is relative and its own
    cleaned form: [..] elements, then names of entries. *)
Lemma Clean_fixpoint_relative p :
  rooted p = false → Clean p = p → p ≠ "." →
  ∃ k names, elements p = replicate k ".." ++ names ∧ Forall entry_name names
             ∧ elements p ≠ [].
Proof.
  intros Hr Hclean Hdot. revert Hclean. unfold Clean. rewrite Hr.
  case_bool_decide as Hempty; [by intros <-|].
  destruct (fold_clean_step_relative (elements p) []) as (k & names & Hfold & Hnames).
  { apply elements_plain_all. } { by exists 0%nat, []. }
  rewrite Hfold, rev_app_distr, rev_replicate, rev_involutive.
  destruct (replicate k ".." ++ names) as [|e out] eqn:Hout; [by intros <-|].
  rewrite <- Hout. intros Hjoin. exists k, names.
  assert (Helems : elements p = replicate k ".." ++ names).
  { rewrite <- Hjoin at 1. apply elements_join; [by apply Forall_plain_shape|].
    by rewrite Hout. }
  split; [done|]. split; [done|]. by rewrite Helems, Hout.
Qed.

(** Where a request path that [validateRequest] accepts leads, unless it
    begins with [..] or is [.] or [/]: to an entry below the directory of
    the server. *)
Lemma accepted_path_below root p :
  rooted root = true →
  p ≠ "" → Clean p = p → ¬ climbs p → p ≠ "." → p ≠ "/" →
  ∃ names, names ≠ [] ∧ Forall entry_name names
           ∧ os.resolve (Join root p) = os.resolve root ++ names.
Proof.
  intros Hroot Hempty Hclean Hclimb Hdot Hslash.
  destruct (rooted p) eqn:Hr.
  - revert Hclean. unfold Clean. rewrite Hr, bool_decide_eq_false_2 by done.
    set (out := rev (fold_left (clean_step true) (elements p) [])).
    assert (Hout : Forall entry_name out).
    { apply Forall_rev, fold_clean_step_rooted; [apply elements_plain_all|constructor]. }
    intros Hp. exists out. split; [intros Hnil; by rewrite Hnil in Hp|]. split; [done|].
    unfold Join. rewrite bool_decide_eq_false_2 by (by destruct root).
    rewrite resolve_Clean by (by apply rooted_app).
    assert (Hne : out ≠ []) by (intros Hnil; by rewrite Hnil in Hp).
    unfold os.resolve. rewrite elements_app_sep, fold_left_app, <- Hp.
    change (elements ("/" +:+ join out)) with ("" :: elements (join out)).
    rewrite elements_join by (done || by apply entry_name_plain).
    simpl. change (clean_step true ?s "") with s.
    rewrite fold_clean_step_entry_names by done.
    by rewrite rev_app_distr, rev_involutive.
  - destruct (Clean_fixpoint_relative p Hr Hclean Hdot) as (k & names & Helems & Hnames & Hne).
    destruct k as [|k]; [|by destruct Hclimb; unfold climbs; rewrite Helems].
    simpl in Helems. exists names. split; [by rewrite <- Helems|]. split; [done|].
    rewrite resolve_Join by (done || by rewrite Helems). by rewrite Helems.
Qed.
End confinement.

Section confinement_claims.
Context `{Wire}.
Import os fsinv.
Implicit Types (fs : FS) (p k : list string).

Lemma validateRequest_None sv req :
  validateRequest sv req = None →
  Request_Path req ≠ "" ∧ filepath.Clean (Request_Path req) = Request_Path req.
Proof.
  unfold validateRequest. repeat case_bool_decide; done.
Qed.

Lemma ApplyRequest_touches sv req fs fs' resp e :
  target sv req ≠ [] →
  ApplyRequest sv req fs = (fs', resp, e) →
  ∀ p, ¬ target sv req `prefix_of` p → stat fs' p = stat fs p.
Proof.
  intros Htarget Happly p Hp.
  assert (Hne : p ≠ target sv req) by (by intros ->).
  revert Happly. unfold ApplyRequest.
  destruct (validateRequest sv req); [by intros [= <-]|].
  repeat case_bool_decide.
  - destruct (Mkdir _ _) as [fs1 [err|]] eqn:Hop; intros [= <- _ _].
    + by rewrite (Mkdir_Some _ _ _ _ Hop).
    + apply Mkdir_None in Hop as (_ & _ & _ & ->). by apply stat_insert_ne.
  - destruct (WriteFile _ _ _) as [fs1 [err|]] eqn:Hop; intros [= <- _ _].
    + by rewrite (WriteFile_Some _ _ _ _ _ Hop).
    + apply WriteFile_None in Hop as (_ & _ & _ & ->). by apply stat_insert_ne.
  - rewrite (RemoveAll_nonroot _ _ (target sv req)) by done. intros [= <- _ _].
    destruct (decide (p = [])) as [->|Hp0]; [done|].
    rewrite !stat_nonroot by done. by apply outside_lookup_other.
  - by intros [= <-].
Qed.

(** X10.  A request whose path is accepted, does not begin with [..] and is
    neither [.] nor [/] stays inside the directory of a server with an
    absolute path: its target lies below that directory, and whatever the
    request is and does, no entry outside of the directory, nor the
    directory itself, changes. *)
Theorem ApplyRequest_confined sv req fs fs' resp e :
  filepath.rooted (Server_path sv) = true →
  validateRequest sv req = None →
  ¬ climbs (Request_Path req) →
  Request_Path req ≠ "." →
  Request_Path req ≠ "/" →
  ApplyRequest sv req fs = (fs', resp, e) →
  below (resolve (Server_path sv)) (target sv req)
  ∧ ∀ p, ¬ below (resolve (Server_path sv)) p → stat fs' p = stat fs p.
Proof.
  intros Hroot [Hempty Hclean]%validateRequest_None Hclimb Hdot Hslash Happly.
  destruct (accepted_path_below (Server_path sv) (Request_Path req))
    as (names & Hnames & _ & Htarget); [done..|].
  fold (target sv req) in Htarget.
  assert (Hlen : ∀ q, q ≠ [] → resolve (Server_path sv) ++ q ≠ resolve (Server_path sv)).
  { intros q Hq Heq. apply (f_equal length) in Heq. rewrite length_app in Heq.
    destruct q; [done|]. simpl in Heq. lia. }
  assert (Hbelow : below (resolve (Server_path sv)) (target sv req)).
  { rewrite Htarget. split; [by apply prefix_app_r|]. by apply Hlen. }
  split; [done|]. intros p Hp.
  eapply ApplyRequest_touches; [|done|].
  - rewrite Htarget. by destruct (resolve (Server_path sv)), names.
  - intros Hpre. apply Hp. split; [by etrans; [apply Hbelow|]|].
    intros ->. rewrite Htarget in Hpre. destruct Hpre as [q Hq].
    rewrite <- app_assoc in Hq. apply (Hlen (names ++ q)); [by destruct names|done].
Qed.

Lemma WriteFile_over name data fs p :
  resolve name = p → p ≠ [] → stat fs (parent p) = Some Dir → fs !! p ≠ Some Dir →
  WriteFile name data fs = (<[p := File data]> fs, None).
Proof.
  intros Hres Hp Hpar Hfree. unfold WriteFile, parent_error. rewrite Hres.
  destruct p; [done|]. rewrite Hpar. by destruct (fs !! _) as [[|c]|].
Qed.

Lemma elements_dotdot name :
  entry_name name → filepath.elements ("../" +:+ name) = [".."; name].
Proof.
  intros (_ & _ & _ & Hplain).
  change ("../" +:+ name) with (".." +:+ "/" +:+ name).
  by rewrite elements_app_sep, (elements_plain name).
Qed.

Lemma Clean_dotdot name :
  entry_name name → filepath.Clean ("../" +:+ name) = "../" +:+ name.
Proof.
  intros Hname. unfold filepath.Clean.
  rewrite bool_decide_eq_false_2 by done.
  change (filepath.rooted ("../" +:+ name)) with false. cbv iota.
  rewrite elements_dotdot by done.
  change (fold_left (filepath.clean_step false) [".."; name] [])
    with (filepath.clean_step false [".."] name).
  by rewrite clean_step_entry_name.
Qed.

Lemma target_dotdot sv req up dir name :
  filepath.rooted (Server_path sv) = true →
  resolve (Server_path sv) = up ++ [dir] →
  entry_name name →
  Request_Path req = "../" +:+ name →
  target sv req = up ++ [name].
Proof.
  intros Hroot Hres Hname Hpath.
  unfold target, filepath.Join. rewrite Hpath.
  rewrite bool_decide_eq_false_2 by (by destruct (Server_path sv)).
  rewrite resolve_Clean by (by apply rooted_app).
  unfold resolve in *. rewrite elements_app_sep, fold_left_app, elements_dotdot by done.
  apply (f_equal (@rev _)) in Hres. rewrite rev_involutive, rev_app_distr in Hres.
  rewrite Hres. simpl.
  assert (Hd : filepath.clean_step true (dir :: rev up) ".." = rev up).
  { unfold filepath.clean_step. simpl.
    destruct (bool_decide (dir = "..")) eqn:Hdd; [|done].
    apply bool_decide_eq_true in Hdd. subst dir.
    exfalso. clear -Hres.
    assert (Hall : Forall entry_name
                     (fold_left (filepath.clean_step true)
                        (filepath.elements (Server_path sv)) [])).
    { apply fold_clean_step_rooted; [apply elements_plain_all|constructor]. }
    rewrite Hres in Hall. apply Forall_inv in Hall. by destruct Hall as (_ & _ & ? & _). }
  rewrite Hd. rewrite (clean_step_entry_name true (rev up) name) by done.
  simpl. by rewrite rev_involutive.
Qed.

(** C1.  [validateRequest] does not reject a path that climbs out of the
    directory of the server, such as [../x].  A request for [../name]
    passes the two checks, whatever its kind, as the path is not empty and
    is its own cleaned form; and its target is the entry [name] next to
    the directory of the server, not below it. *)
Theorem validateRequest_misses_traversal sv req up dir name :
  filepath.rooted (Server_path sv) = true →
  resolve (Server_path sv) = up ++ [dir] →
  entry_name name →
  Request_Path req = "../" +:+ name →
  validateRequest sv req = None
  ∧ target sv req = up ++ [name]
  ∧ ¬ below (resolve (Server_path sv)) (target sv req).
Proof.
  intros Hroot Hres Hname Hpath.
  pose proof (target_dotdot sv req up dir name Hroot Hres Hname Hpath) as Htarget.
  split; [|split; [done|]].
  - unfold validateRequest. rewrite Hpath.
    rewrite bool_decide_eq_false_2 by done.
    rewrite bool_decide_eq_false_2; [done|]. intros Hne. apply Hne.
    symmetry. by apply Clean_dotdot.
  - rewrite Htarget, Hres. intros [[q Hq] Hne].
    rewrite <- app_assoc in Hq. apply app_inv_head in Hq. simpl in Hq.
    injection Hq as -> _. done.
Qed.

(** X11.  A create request for [../name], where [name] is not the name of
    the server's directory, is accepted, and it writes the file next to the
    directory of the server, not in it. *)
Theorem ApplyRequest_dotdot_escapes sv req fs up dir name :
  filepath.rooted (Server_path sv) = true →
  resolve (Server_path sv) = up ++ [dir] →
  entry_name name →
  name ≠ dir →
  Request_Type req = requestCreate →
  Request_Path req = "../" +:+ name →
  stat fs up = Some Dir →
  stat fs (up ++ [name]) ≠ Some Dir →
  validateRequest sv req = None
  ∧ ¬ resolve (Server_path sv) `prefix_of` target sv req
  ∧ ApplyRequest sv req fs
    = (<[up ++ [name] := File (Request_Data req)]> fs, okResponse, None).
Proof.
  intros Hroot Hres Hname Hdir Ht Hpath Hup Hfree.
  assert (Hv : validateRequest sv req = None).
  { unfold validateRequest. rewrite Hpath.
    rewrite bool_decide_eq_false_2 by done.
    rewrite bool_decide_eq_false_2; [done|]. intros Hne. apply Hne.
    symmetry. by apply Clean_dotdot. }
  assert (Htarget : target sv req = up ++ [name]).
  { unfold target, filepath.Join. rewrite Hpath.
    rewrite bool_decide_eq_false_2 by (by destruct (Server_path sv)).
    rewrite resolve_Clean by (by apply rooted_app).
    unfold resolve in *. rewrite elements_app_sep, fold_left_app, elements_dotdot by done.
    apply (f_equal (@rev _)) in Hres. rewrite rev_involutive, rev_app_distr in Hres.
    rewrite Hres. simpl.
    destruct Hname as (H1 & H2 & H3 & H4).
    assert (Hd : filepath.clean_step true (dir :: rev up) ".." = rev up).
    { unfold filepath.clean_step. simpl.
      destruct (bool_decide (dir = "..")) eqn:Hdd; [|done].
      apply bool_decide_eq_true in Hdd. subst dir.
      (* the directory of the server is never called [..] *)
      exfalso. clear -Hres.
      assert (Hall : Forall entry_name
                       (fold_left (filepath.clean_step true)
                          (filepath.elements (Server_path sv)) [])).
      { apply fold_clean_step_rooted; [apply elements_plain_all|constructor]. }
      rewrite Hres in Hall. apply Forall_inv in Hall. by destruct Hall as (_ & _ & ? & _). }
    rewrite Hd. rewrite (clean_step_entry_name true (rev up) name) by done.
    simpl. by rewrite rev_involutive. }
  split; [done|]. split.
  - rewrite Htarget, Hres. intros [q Hq]. rewrite <- app_assoc in Hq.
    apply app_inv_head in Hq. simpl in Hq. by injection Hq as Hq _.
  - rewrite ApplyRequest_Create by done.
    rewrite (WriteFile_over _ _ _ (up ++ [name])); [done|done|by destruct up|..].
    + by rewrite parent_snoc.
    + by rewrite <- stat_nonroot by (by destruct up).
Qed.
End confinement_claims.

(** ** Replaying a listing *)

Section replay.
Context `{Wire}.
Import os fsinv.
Implicit Types (fs : FS) (p k : list string).

(** X12.  Whatever requests the server is sent, it never leaves an entry
    without the directories above it. *)
Theorem applyAll_no_orphans sv reqs fs p below n :
  wf fs →
  (applyAll sv reqs fs).1 !! (p ++ below) = Some n →
  below ≠ [] →
  stat (applyAll sv reqs fs).1 p = Some Dir.
Proof.
  intros Hwf Hentry Hbelow. eapply wf_ancestor; [|done..].
  clear Hentry. revert fs Hwf. induction reqs as [|req rest IH]; intros fs Hwf; [done|].
  simpl. pose proof (ApplyRequest_wf sv req fs Hwf) as Hstep.
  destruct (ApplyRequest sv req fs) as [[fs1 resp] e]. simpl in Hstep.
  specialize (IH fs1 Hstep). by destruct (applyAll sv rest fs1).
Qed.

Lemma applyAll_app sv reqs1 reqs2 fs :
  applyAll sv (reqs1 ++ reqs2) fs
  = let '(fs1, resps1) := applyAll sv reqs1 fs in
    let '(fs2, resps2) := applyAll sv reqs2 fs1 in
    (fs2, resps1 ++ resps2).
Proof.
  revert fs. induction reqs1 as [|req reqs1 IH]; intros fs.
  - simpl. by destruct (applyAll sv reqs2 fs).
  - simpl. destruct (ApplyRequest sv req fs) as [[fs1 resp] e]. rewrite IH.
    destruct (applyAll sv reqs1 fs1) as [fs2 resps1].
    by destruct (applyAll sv reqs2 fs2).
Qed.

Lemma join_entry_names names :
  Forall entry_name names → names ≠ [] →
  filepath.join names ≠ ""
  ∧ filepath.rooted (filepath.join names) = false
  ∧ filepath.elements (filepath.join names) = names
  ∧ filepath.Clean (filepath.join names) = filepath.join names.
Proof.
  intros Hnames Hne.
  assert (Helems : filepath.elements (filepath.join names) = names)
    by (by apply elements_join; [apply entry_name_plain|]).
  assert (Hhead : ∃ c rest, filepath.join names = String c rest
                            ∧ filepath.IsPathSeparator c = false).
  { destruct Hnames as [|n names (Hn & _ & _ & Hplain) _]; [done|].
    destruct n as [|c n]; [done|]. simpl in Hplain.
    apply andb_prop in Hplain as [Hc%negb_true_iff _].
    destruct names; by eexists _, _. }
  destruct Hhead as (c & rest & Hjoin & Hc).
  assert (Hrooted : filepath.rooted (filepath.join names) = false) by (by rewrite Hjoin).
  split; [by rewrite Hjoin|]. split; [done|]. split; [done|].
  unfold filepath.Clean. rewrite bool_decide_eq_false_2 by (by rewrite Hjoin).
  rewrite Hrooted, Helems, fold_clean_step_entry_names by done.
  rewrite app_nil_r, rev_involutive. by destruct names.
Qed.

Lemma request_of_valid sv entry :
  entry.1 ≠ [] → Forall entry_name entry.1 →
  validateRequest sv (request_of entry) = None
  ∧ Request_Path (request_of entry) = filepath.join entry.1.
Proof.
  intros Hne Hnames.
  destruct (join_entry_names entry.1 Hnames Hne) as (Hjoin & _ & _ & Hclean).
  assert (Hpath : Request_Path (request_of entry) = filepath.join entry.1).
  { unfold request_of. by destruct entry.2. }
  split; [|done]. unfold validateRequest. rewrite Hpath.
  rewrite bool_decide_eq_false_2 by done.
  by rewrite bool_decide_eq_false_2 by (by rewrite Hclean; intros ?).
Qed.

Lemma request_of_apply sv entry fs root :
  filepath.rooted (Server_path sv) = true →
  resolve (Server_path sv) = root →
  entry.1 ≠ [] → Forall entry_name entry.1 →
  stat fs (root ++ parent entry.1) = Some Dir →
  fs !! (root ++ entry.1) = None →
  ApplyRequest sv (request_of entry) fs = (<[root ++ entry.1 := entry.2]> fs, okResponse, None).
Proof.
  intros Hrooted Hroot Hne Hnames Hpar Hfree.
  destruct (request_of_valid sv entry Hne Hnames) as [Hv Hpath].
  destruct (join_entry_names entry.1 Hnames Hne) as (_ & _ & Helems & _).
  assert (Htarget : resolve (filepath.Join (Server_path sv) (Request_Path (request_of entry)))
                    = root ++ entry.1).
  { rewrite Hpath, resolve_Join by (done || by rewrite Helems). by rewrite Hroot, Helems. }
  assert (Hp0 : root ++ entry.1 ≠ []) by (by destruct root, entry.1).
  assert (Hparent : parent (root ++ entry.1) = root ++ parent entry.1).
  { destruct (exists_last Hne) as (q & x & ->).
    by rewrite app_assoc, !parent_snoc. }
  destruct entry as [names [|data]]; simpl in *.
  - rewrite ApplyRequest_Mkdir by done.
    by rewrite (Mkdir_fresh _ _ (root ++ names)) by (done || by rewrite Hparent).
  - rewrite ApplyRequest_Create by done.
    by rewrite (WriteFile_new _ _ _ (root ++ names)) by (done || by rewrite Hparent).
Qed.

Lemma listing_prefix tree entry : listing (tree ++ [entry]) → listing tree.
Proof.
  intros (Hall & Hnodup & Hparents). split; [|split].
  - by apply Forall_app in Hall as [? _].
  - rewrite fmap_app in Hnodup. by apply NoDup_app in Hnodup as [? _].
  - intros i e Hi. destruct (Hparents i e) as [?|(j & Hj & Hlook)]; [|by left|].
    { by apply lookup_app_l_Some. }
    right. exists j. split; [done|].
    rewrite lookup_app_l in Hlook; [done|].
    apply lookup_lt_Some in Hi. lia.
Qed.

Lemma replay_steps sv fs tree :
  filepath.rooted (Server_path sv) = true →
  empty_dir fs (resolve (Server_path sv)) →
  listing tree →
  ∃ fs',
    applyAll sv (request_of <$> tree) fs = (fs', replicate (length tree) okResponse)
    ∧ (∀ names node, names ≠ [] →
         fs' !! (resolve (Server_path sv) ++ names) = Some node ↔ (names, node) ∈ tree)
    ∧ (∀ p, ¬ below (resolve (Server_path sv)) p → stat fs' p = stat fs p).
Proof.
  intros Hrooted [Hrootdir Hempty].
  set (root := resolve (Server_path sv)) in *.
  assert (Hlen : ∀ q, q ≠ [] → root ++ q ≠ root).
  { intros q Hq Heq. apply (f_equal length) in Heq. rewrite length_app in Heq.
    destruct q; [done|]. simpl in Heq. lia. }
  induction tree as [|[names node] tree IH] using rev_ind; intros Hlisting.
  - exists fs. split; [done|]. split; [|done].
    intros names node Hnames. split; [|by intros ?%elem_of_nil].
    rewrite Hempty; [done|by apply prefix_app_r|by apply Hlen].
  - destruct (IH (listing_prefix _ _ Hlisting)) as (fs1 & Hrun & Hin & Hout).
    destruct Hlisting as (Hall & Hnodup & Hparents).
    apply Forall_app in Hall as [Hall [Hne Hnames]%Forall_inv]. simpl in Hne, Hnames.
    rewrite fmap_app in Hnodup. apply NoDup_app in Hnodup as (_ & Hfresh & _).
    assert (Hnew : ∀ n, (names, n) ∉ tree).
    { intros n Hn. apply (Hfresh names).
      - apply list_elem_of_fmap. by exists (names, n).
      - simpl. by left. }
    assert (Hfree : fs1 !! (root ++ names) = None).
    { destruct (fs1 !! (root ++ names)) as [n|] eqn:Hk; [|done].
      apply Hin in Hk; [|done]. by destruct (Hnew n). }
    assert (Hpar : stat fs1 (root ++ parent names) = Some Dir).
    { destruct (Hparents (length tree) (names, node)) as [Htop|(j & Hj & Hlook)].
      - by rewrite lookup_app_r, Nat.sub_diag by lia.
      - simpl in Htop. rewrite Htop, app_nil_r, Hout; [done|]. by intros [_ ?].
      - simpl in Hlook. rewrite lookup_app_l in Hlook by done.
        apply list_elem_of_lookup_2 in Hlook.
        assert (Hpn : parent names ≠ []).
        { by apply (proj1 (Forall_forall _ _) Hall) in Hlook as [? _]. }
        rewrite stat_nonroot by (by destruct root, (parent names)).
        by apply Hin. }
    exists (<[root ++ names := node]> fs1). split; [|split].
    + rewrite fmap_app, applyAll_app, Hrun. simpl.
      rewrite (request_of_apply sv (names, node) fs1 root) by done. simpl.
      by rewrite length_app, replicate_add.
    + intros names' node' Hne'. rewrite elem_of_app, list_elem_of_singleton.
      destruct (decide (names' = names)) as [->|Hdiff].
      * rewrite lookup_insert_eq. split.
        -- intros [= ->]. by right.
        -- intros [Hold|[= ->]]; [by destruct (Hnew node')|done].
      * rewrite lookup_insert_ne by (by intros ?%app_inv_head).
        rewrite Hin by done. split; [by left|].
        by intros [?|[= ? _]].
    + intros p Hp. rewrite stat_insert_ne; [by apply Hout|].
      intros ->. apply Hp. split; [by apply prefix_app_r|by apply Hlen].
Qed.

(** X13.  Replaying a listing on a server with an empty directory rebuilds
    the tree: every request is answered ok, afterwards the directory of the
    server holds exactly the listed entries, each under its names, and
    nothing outside of the directory has changed. *)
Theorem applyAll_replays_listing sv fs tree :
  filepath.rooted (Server_path sv) = true →
  empty_dir fs (resolve (Server_path sv)) →
  listing tree →
  ∃ fs',
    applyAll sv (request_of <$> tree) fs = (fs', replicate (length tree) okResponse)
    ∧ (∀ names node, names ≠ [] →
         fs' !! (resolve (Server_path sv) ++ names) = Some node ↔ (names, node) ∈ tree)
    ∧ (∀ p, ¬ below (resolve (Server_path sv)) p → stat fs' p = stat fs p).
Proof. apply replay_steps. Qed.
End replay.

(** ** The client on the network *)

Section send_facts.
Context `{Wire} {W : Type} `{!World W}.

Lemma sendLoop_refused passed refused later st :
  refused_after passed refused (world st) →
  ∃ st' resp,
    sendLoop (passed ++ refused :: later) st
    = (Some (errorString ("Sending request to server '" +:+ Request_String refused
                            +:+ "' failed: " +:+ Response_String resp)), st')
    ∧ Response_Type resp = responseErr
    ∧ log st' = log st ++ (Sent <$> passed ++ [refused]).
Proof.
  revert st. induction passed as [|req rest IH]; intros st Hrun.
  - simpl in Hrun. rewrite app_nil_l, sendLoop_unfold.
    destruct (Call refused (world st)) as [r w]. simpl in *.
    rewrite bool_decide_eq_true_2 by done. by eexists _, _.
  - destruct Hrun as [Hok Hrest].
    rewrite <- app_comm_cons, sendLoop_unfold.
    destruct (Call req (world st)) as [r w]. simpl in *.
    rewrite bool_decide_eq_false_2 by done.
    destruct (IH {| world := w; log := log st ++ [Sent req] |} Hrest)
      as (st' & resp & -> & Hresp & Hlog).
    exists st', resp. split; [done|]. split; [done|].
    rewrite Hlog. simpl. by rewrite <- app_assoc.
Qed.

(** X14.  [sendRequests] stops at the first request that is answered with an
    error: it returns an error that names this request and the response,
    the requests after it are not sent, and the connection is closed. *)
Theorem sendRequests_stops_at_first_error c passed refused later st w :
  Dial (Client_server c) (world st) = (None, w) →
  refused_after passed refused w →
  ∃ st' resp,
    sendRequests c (passed ++ refused :: later) st
    = (Some (errorString ("Sending request to server '" +:+ Request_String refused
                            +:+ "' failed: " +:+ Response_String resp)), st')
    ∧ Response_Type resp = responseErr
    ∧ log st' = log st ++ Connect true :: (Sent <$> passed ++ [refused]) ++ [Close].
Proof.
  intros Hdial Hrun.
  rewrite sendRequests_unfold by (by destruct passed). rewrite Hdial. simpl.
  destruct (sendLoop_refused passed refused later
              {| world := w; log := log st ++ [Connect true] |} Hrun)
    as (st1 & resp & -> & Hresp & Hlog).
  eexists _, resp. split; [done|]. split; [done|]. simpl.
  rewrite Hlog. simpl. by rewrite <- !app_assoc.
Qed.


End send_facts.

Section batches_facts.











End batches_facts.

Section sync_more.
Context `{Wire} {W : Type} `{!World W}.



End sync_more.

(** ** The watcher *)

Section watcher_more.
Context `{Wire} {W : Type} `{!World W}.

Lemma handleEvent_removal c event req st :
  removal c event req → handleEvent c event st = ((Some req, None), st).
Proof.
  intros (Hcreate & Hkind & relPath & Hrel & ->). unfold handleEvent.
  rewrite Hrel, Hcreate. destruct Hkind as [-> | Hrename]; [done|].
  rewrite Hrename. by destruct (has event fsnotify.Remove).
Qed.

Lemma handleEvent_chmod c event st :
  chmod_only c event → handleEvent c event st = ((None, None), st).
Proof.
  intros (Hcreate & Hremove & Hrename & Hwrite & Hchmod & relPath & Hrel).
  unfold handleEvent. by rewrite Hrel, Hcreate, Hremove, Hrename, Hwrite, Hchmod.
Qed.

(** X18.  As long as only the timer fires and events only tell of changes
    of attributes, the loop sends nothing and makes no connection: it is
    left waiting with an empty buffer, in the world as it was. *)
Theorem watcherLoop_quiet c rounds st :
  Forall (quiet c) rounds →
  watcherLoop c rounds [] st = (Waiting [], st).
Proof.
  induction 1 as [|round rounds Hround Hrounds IH]; [done|].
  destruct round as [[event|]|err|]; try done.
  simpl in Hround. simpl. unfold bind. by rewrite handleEvent_chmod.
Qed.

Lemma watcherLoop_removals c events reqs rest buf st :
  Forall2 (removal c) events reqs →
  (length buf + length events < requestsBufferSize)%nat →
  watcherLoop c ((RecvEvent ∘ Some <$> events) ++ rest) buf st
  = watcherLoop c rest (buf ++ reqs) st.
Proof.
  intros Hevents. revert buf.
  induction Hevents as [|event req events reqs Hevent Hevents IH]; intros buf Hlen.
  - by rewrite app_nil_r.
  - simpl in *. unfold bind. rewrite (handleEvent_removal c event req) by done.
    rewrite bool_decide_eq_false_2 by (rewrite length_app; simpl; lia).
    rewrite IH by (rewrite length_app; simpl; lia).
    by rewrite <- app_assoc.
Qed.

(** X19.  Requests wait in the buffer until the timer fires: after fewer
    than a hundred removals and renamings, the timer makes the loop send
    their requests, in the order of the events, in one call of
    [sendRequests]; an error of this call ends the loop, otherwise the
    loop goes on with an empty buffer. *)
Theorem watcherLoop_flushes_on_timer c events reqs rest st :
  Forall2 (removal c) events reqs →
  (length events < requestsBufferSize)%nat →
  watcherLoop c ((RecvEvent ∘ Some <$> events) ++ Timeout :: rest) [] st
  = match sendRequests c reqs st with
    | (Some err, st') => (Returned (Some err), st')
    | (None, st') => watcherLoop c rest [] st'
    end.
Proof.
  intros Hevents Hlen. rewrite (watcherLoop_removals c events reqs) by done.
  simpl. destruct reqs as [|req reqs]; [done|].
  rewrite bool_decide_eq_true_2 by (simpl; lia). unfold bind.
  by destruct (sendRequests c (req :: reqs) st) as [[err|] st'].
Qed.

(** X20.  The hundredth request is not kept waiting: after a hundred
    removals and renamings the loop sends their requests at once, in the
    order of the events, without the timer. *)
Theorem watcherLoop_flushes_when_full c events reqs rest st :
  Forall2 (removal c) events reqs →
  length events = requestsBufferSize →
  watcherLoop c ((RecvEvent ∘ Some <$> events) ++ rest) [] st
  = match sendRequests c reqs st with
    | (Some err, st') => (Returned (Some err), st')
    | (None, st') => watcherLoop c rest [] st'
    end.
Proof.
  intros Hevents Hlen.
  destruct events as [|e0 events0] using rev_ind; [done|]. clear IHevents0.
  apply Forall2_app_inv_l in Hevents as (reqs0 & reqs1 & Hinit & Hlast & ->).
  apply Forall2_cons_inv_l in Hlast as (req & reqs2 & Hreq & Hnil & ->).
  apply Forall2_nil_inv_l in Hnil as ->.
  rewrite length_app in Hlen. simpl in Hlen. unfold requestsBufferSize in *.
  rewrite fmap_app, <- app_assoc.
  rewrite (watcherLoop_removals c events0 reqs0);
    [|done|unfold requestsBufferSize; simpl; lia].
  simpl. unfold bind. rewrite (handleEvent_removal c e0 req) by done.
  rewrite bool_decide_eq_true_2
    by (unfold requestsBufferSize;
        rewrite length_app, <- (Forall2_length _ _ _ Hinit); simpl; lia).
  unfold bind.
  by destruct (sendRequests c (reqs0 ++ [req]) st) as [[err|] st'].
Qed.

(** X21.  An event with none of the five operation bits is an error: no
    request is made of it, and the loop returns the error, wrapped, without
    sending what is in the buffer. *)
Theorem watcherLoop_stops_on_unknown_event c event relPath rounds reqs st :
  Rel (Client_path c) (fsnotify.Name event) = inr relPath →
  unknown_op event →
  let err := errorString ("Erroneous event value (" +:+ pretty (fsnotify.Op event)
                            +:+ "): " +:+ fsnotify.Name event) in
  handleEvent c event st = ((None, Some err), st)
  ∧ watcherLoop c (RecvEvent (Some event) :: rounds) reqs st
    = (Returned (Some (withMessage err "Handling file event failed")), st).
Proof.
  intros Hrel (Hcreate & Hremove & Hrename & Hwrite & Hchmod) err.
  assert (Hev : handleEvent c event st = ((None, Some err), st)).
  { unfold handleEvent. by rewrite Hrel, Hcreate, Hremove, Hrename, Hwrite, Hchmod. }
  split; [done|]. simpl. unfold bind. by rewrite Hev.
Qed.

Lemma walkDir_adds visits w st :
  Forall (λ v, we_err v = None) visits →
  world st = w →
  walkVisits
    (λ v (_ : unit),
       match we_err v with
       | Some err => ret (Some err, tt)
       | None =>
           if negb (we_IsDir v) then ret (None, tt)
           else bind (perform (watcherAdd (we_path v))) (λ err, ret (err, tt))
       end) visits tt st
  = let '(err, w') := addWatches (we_path <$> filter (λ v, we_IsDir v = true) visits) w in
    ((err, tt), {| world := w'; log := log st |}).
Proof.
  intros Hvisits. revert w st.
  induction Hvisits as [|v visits Hv Hvisits IH]; intros w st <-.
  - by destruct st.
  - simpl. unfold bind at 1. rewrite Hv.
    destruct (we_IsDir v) eqn:Hdir; simpl.
    + rewrite filter_cons_True by done. simpl.
      unfold bind, perform, ret.
      destruct (watcherAdd (we_path v) (world st)) as [[err|] w']; [done|].
      by rewrite (IH w').
    + rewrite filter_cons_False by (by rewrite Hdir). unfold ret.
      by rewrite (IH (world st)).
Qed.

Lemma recursiveAddWatchers_adds c root st visits w1 :
  Walk root (world st) = (visits, w1) →
  Forall (λ v, we_err v = None) visits →
  recursiveAddWatchers c root st
  = let '(err, w) := addWatches (we_path <$> filter (λ v, we_IsDir v = true) visits) w1 in
    (err, {| world := w; log := log st |}).
Proof.
  intros Hwalk Hvisits. unfold recursiveAddWatchers, walkDir, filepath_Walk.
  unfold bind at 1. unfold bind at 1. unfold perform at 1. rewrite Hwalk.
  rewrite (walkDir_adds visits w1) by done. simpl.
  by destruct (addWatches _ w1) as [err w].
Qed.

(** X22.  [recursiveAddWatchers] watches the directories that the walk of
    its root shows, in the order of the walk and up to the first one that
    cannot be watched, and nothing else: files are not watched, and the
    network is not used. *)
Theorem recursiveAddWatchers_watches_directories c root st visits w1 :
  Walk root (world st) = (visits, w1) →
  Forall (λ v, we_err v = None) visits →
  recursiveAddWatchers c root st
  = let '(err, w) := addWatches (we_path <$> filter (λ v, we_IsDir v = true) visits) w1 in
    (err, {| world := w; log := log st |}).
Proof. apply recursiveAddWatchers_adds. Qed.

(** X23.  The creation of a directory: the directories that a walk of the
    new directory shows are watched first; then the request is a mkdir
    request, or, when one of them cannot be watched, there is no request
    and the error is returned. *)
Theorem handleEvent_created_directory c event relPath st w1 visits w2 :
  Rel (Client_path c) (fsnotify.Name event) = inr relPath →
  has event fsnotify.Create = true →
  Stat (fsnotify.Name event) (world st) = (inr true, w1) →
  Walk (fsnotify.Name event) w1 = (visits, w2) →
  Forall (λ v, we_err v = None) visits →
  handleEvent c event st
  = match addWatches (we_path <$> filter (λ v, we_IsDir v = true) visits) w2 with
    | (Some err, w3) => ((None, Some err), {| world := w3; log := log st |})
    | (None, w3) =>
        ((Some (newMkdirRequest relPath), None), {| world := w3; log := log st |})
    end.
Proof.
  intros Hrel Hcreate Hstat Hwalk Hvisits. unfold handleEvent.
  rewrite Hrel, Hcreate. unfold bind at 1. unfold isDirectory, bind at 1, perform at 1, ret at 1.
  rewrite Hstat. simpl. unfold bind.
  rewrite (recursiveAddWatchers_adds c _ _ visits w2) by done.
  by destruct (addWatches _ w2) as [[err|] w3].
Qed.

(** X24.  When one of the directories cannot be watched, [SyncAndMonitor]
    closes the watcher and returns the wrapped error, without walking the
    directory for the files and without using the network. *)
Theorem SyncAndMonitor_watcher_failure c rounds st w1 visits w2 err w3 :
  NewWatcher (world st) = (None, w1) →
  Walk (Client_path c) w1 = (visits, w2) →
  Forall (λ v, we_err v = None) visits →
  addWatches (we_path <$> filter (λ v, we_IsDir v = true) visits) w2 = (Some err, w3) →
  SyncAndMonitor c rounds st
  = (Returned (Some (withMessage err ("Monitoring directory '" +:+ Client_path c
                                        +:+ "' failed"))),
     {| world := watcherClose w3; log := log st |}).
Proof.
  intros Hnew Hwalk Hvisits Hadd.
  unfold SyncAndMonitor, startWatcher. unfold bind at 1. unfold bind at 1.
  unfold perform at 1. rewrite Hnew. unfold bind at 1.
  rewrite (recursiveAddWatchers_adds c _ _ visits w2) by done.
  rewrite Hadd. done.
Qed.
End watcher_more.
(** ** The client's start *)

Section client_start_facts.
Context {W : Type} `{!World W}.
Import filepath.

Lemma NewClient_ok resolveTCPAddr address port path st c st' :
  NewClient resolveTCPAddr address port path st = (inr c, st') →
  Client_server c = JoinHostPort address (pretty port)
  ∧ rooted (Client_path c) = true
  ∧ Clean (Client_path c) = Client_path c
  ∧ os.resolve (Client_path c) = os.resolve path
  ∧ ∃ w1 w2 cert,
      Stat path (world st) = (inr true, w1)
      ∧ resolveTCPAddr (Client_server c) w1 = (None, w2)
      ∧ ReadFile "./certs/server.cert" w2 = (inr cert, world st').
Proof.
  unfold NewClient, isDirectory, getClientTLSConfig, bind, perform, ret.
  destruct (Stat path (world st)) as [[e|[|]] w1] eqn:Hstat; simpl; try done.
  destruct (resolveTCPAddr _ w1) as [[e|] w2] eqn:Haddr; simpl; [done|].
  destruct (ReadFile "./certs/server.cert" w2) as [[e|cert] w3] eqn:Hcert; simpl; [done|].
  intros [= <- <-]. simpl.
  split; [done|]. split; [apply Abs_rooted|]. split; [apply Abs_clean|].
  split; [apply resolve_Abs|]. by exists w1, w2, cert.
Qed.

(** X25.  A client that [NewClient] returns watches a path that is absolute
    and clean and denotes the path given; its server is the address and
    the port joined.  To get there, [os.Stat] showed the path as a
    directory, then [net.ResolveTCPAddr] resolved the joined address, then
    the certificate was read, in this order and each without an error. *)
Theorem NewClient_gives_client resolveTCPAddr address port path st c st' :
  NewClient resolveTCPAddr address port path st = (inr c, st') →
  Client_server c = JoinHostPort address (pretty port)
  ∧ rooted (Client_path c) = true
  ∧ Clean (Client_path c) = Client_path c
  ∧ os.resolve (Client_path c) = os.resolve path
  ∧ ∃ w1 w2 cert,
      Stat path (world st) = (inr true, w1)
      ∧ resolveTCPAddr (Client_server c) w1 = (None, w2)
      ∧ ReadFile "./certs/server.cert" w2 = (inr cert, world st').
Proof. apply NewClient_ok. Qed.

(** X26.  When [main] of the client gets to [SyncAndMonitor], the flags were
    valid, the directory of the flag was shown as a directory, and the
    client has the address and the port of the flags, joined, and an
    absolute path that denotes the directory of the flag. *)
Theorem client_run_monitoring resolveTCPAddr directory address port st c st' :
  client_run resolveTCPAddr directory address port st = (Monitoring c, st') →
  directory ≠ "" ∧ address ≠ "" ∧ (1 ≤ port ≤ 65535)%Z
  ∧ (∃ w1, Stat directory (world st) = (inr true, w1))
  ∧ Client_server c = JoinHostPort address (pretty port)
  ∧ rooted (Client_path c) = true
  ∧ os.resolve (Client_path c) = os.resolve directory.
Proof.
  unfold client_run, client_main, invalidFlags.
  repeat case_bool_decide; simpl; try done.
  unfold bind at 1.
  destruct (NewClient _ _ _ _ st) as [[e|c1] st1] eqn:Hnew; [done|].
  intros [= <- <-].
  apply NewClient_ok in Hnew as (Hserver & Hr & _ & Hres & (w1 & w2 & cert & Hdir & _)).
  rewrite Hserver. unfold uint16. rewrite Z.mod_small by lia.
  split; [done|]. split; [done|]. split; [lia|]. split; [by exists w1|]. done.
Qed.
End client_start_facts.

(** ** The further statements at work *)

Lemma validateRequest_misses_traversal_witness :
  validateRequest srv (putFile (H := iotaWire) "../x" []) = None
  ∧ target srv (putFile (H := iotaWire) "../x" []) = [] ++ ["x"]
  ∧ ¬ below (os.resolve (Server_path srv)) (target srv (putFile (H := iotaWire) "../x" [])).
Proof.
  apply (validateRequest_misses_traversal srv (putFile (H := iotaWire) "../x" [])
           [] "srv" "x").
  - reflexivity.
  - reflexivity.
  - by repeat split.
  - reflexivity.
Defined.

Lemma checkOrMakeEmptyDirectory_gives_empty_dir_witness :
  fsinv.wf srv_fs
  ∧ fsinv.empty_dir srv_fs (os.resolve "/srv")
  ∧ ∀ p, p ≠ os.resolve "/srv" → os.stat srv_fs p = os.stat ∅ p.
Proof.
  apply (checkOrMakeEmptyDirectory_gives_empty_dir "/srv" ∅ srv_fs).
  - reflexivity.
  - apply wf_empty.
  - reflexivity.
Defined.

Lemma checkOrMakeEmptyDirectory_failures_witness :
  srv_fs_d = srv_fs_d
  ∧ ((∃ content, os.stat srv_fs_d (os.resolve "/srv") = Some (os.File content)
                 ∧ errorString "/srv: Directory is not empty"
                   = errorString ("/srv" +:+ ": Not a directory"))
     ∨ (os.stat srv_fs_d (os.resolve "/srv") = Some os.Dir
        ∧ (∃ k n, srv_fs_d !! k = Some n ∧ k ≠ [] ∧ os.parent k = os.resolve "/srv")
        ∧ errorString "/srv: Directory is not empty"
          = errorString ("/srv" +:+ ": Directory is not empty"))
     ∨ (os.stat srv_fs_d (os.resolve "/srv") = None
        ∧ os.stat srv_fs_d (os.parent (os.resolve "/srv")) ≠ Some os.Dir
        ∧ ∃ e, (e = ENOENT ∨ e = ENOTDIR)
               ∧ errorString "/srv: Directory is not empty" = PathError "mkdir" "/srv" e)).
Proof.
  apply (checkOrMakeEmptyDirectory_failures "/srv" srv_fs_d srv_fs_d
           (errorString "/srv: Directory is not empty")).
  - reflexivity.
  - reflexivity.
Defined.

Lemma NewServer_serves_empty_dir_witness :
  Server_address srv = "localhost" ∧ Server_port srv = 12345
  ∧ filepath.rooted (Server_path srv) = true
  ∧ filepath.Clean (Server_path srv) = Server_path srv
  ∧ os.resolve (Server_path srv) = os.resolve "/srv"
  ∧ fsinv.empty_dir srv_fs (os.resolve (Server_path srv))
  ∧ fsinv.wf srv_fs.
Proof.
  apply (NewServer_serves_empty_dir None "localhost" 12345 "/srv" ∅ srv_fs srv).
  - reflexivity.
  - apply wf_empty.
  - reflexivity.
Defined.

Lemma NewServer_tls_failure_keeps_directory_witness :
  NewServer (Some (errorString "open ./certs/server.cert: no such file or directory"))
    "localhost" 12345 "/srv" ∅
  = (<[os.resolve "/srv" := os.Dir]> ∅,
     inl (withMessage (errorString "open ./certs/server.cert: no such file or directory")
            "Creating TLS config failed"))
  ∧ os.stat (<[os.resolve "/srv" := os.Dir]> ∅) (os.resolve "/srv") = Some os.Dir.
Proof.
  apply (NewServer_tls_failure_keeps_directory
           (errorString "open ./certs/server.cert: no such file or directory")
           "localhost" 12345 "/srv" ∅).
  - reflexivity.
  - apply wf_empty.
  - reflexivity.
  - reflexivity.
Defined.

Lemma server_run_listening_witness :
  "/srv" ≠ "" ∧ "localhost" ≠ "" ∧ (1 ≤ 12345 ≤ 65535)%Z
  ∧ Server_address srv = "localhost" ∧ Server_port srv = 12345
  ∧ filepath.rooted (Server_path srv) = true
  ∧ os.resolve (Server_path srv) = os.resolve "/srv"
  ∧ fsinv.empty_dir srv_fs (os.resolve (Server_path srv)).
Proof.
  apply (server_run_listening None "/srv" "localhost" 12345 ∅ srv_fs srv).
  - reflexivity.
  - apply wf_empty.
  - reflexivity.
Defined.

Lemma srv_fs_d_wf : fsinv.wf srv_fs_d.
Proof. apply (applyAll_wf (H := iotaWire)), srv_fs_wf. Qed.

Lemma ApplyRequest_Mkdir_exclusive_witness :
  ApplyRequest (H := iotaWire) srv (newMkdirRequest (H := iotaWire) "d") srv_fs_d
  = (srv_fs_d, {| Response_Type := 1; Response_Message := "mkdir /srv/d: file exists" |}, None).
Proof.
  apply (ApplyRequest_Mkdir_exclusive (H := iotaWire) srv
           (newMkdirRequest (H := iotaWire) "d") srv_fs_d os.Dir).
  - apply srv_fs_d_wf.
  - reflexivity.
  - reflexivity.
  - reflexivity.
Defined.

Lemma ApplyRequest_Create_stores_witness :
  os.stat (<[["srv"; "d"; "f"] := os.File ["y"%byte]]> srv_fs_d)
    (target srv (putFile (H := iotaWire) "d/f" ["y"%byte]))
  = Some (os.File ["y"%byte])
  ∧ ∀ p, p ≠ target srv (putFile (H := iotaWire) "d/f" ["y"%byte]) →
         os.stat (<[["srv"; "d"; "f"] := os.File ["y"%byte]]> srv_fs_d) p = os.stat srv_fs_d p.
Proof.
  apply (ApplyRequest_Create_stores (H := iotaWire) srv
           (putFile (H := iotaWire) "d/f" ["y"%byte]) srv_fs_d
           (<[["srv"; "d"; "f"] := os.File ["y"%byte]]> srv_fs_d) None).
  - reflexivity.
  - reflexivity.
  - reflexivity.
Defined.

Lemma ApplyRequest_error_changes_nothing_witness : srv_fs_d = srv_fs_d.
Proof.
  apply (ApplyRequest_error_changes_nothing (H := iotaWire) srv
           (newMkdirRequest (H := iotaWire) "d") srv_fs_d srv_fs_d
           {| Response_Type := 1; Response_Message := "mkdir /srv/d: file exists" |} None).
  - reflexivity.
  - reflexivity.
  - vm_compute. discriminate.
Defined.

Lemma ApplyRequest_Remove_twice_witness :
  applyAll (H := iotaWire) srv
    [newRemoveRequest (H := iotaWire) "d"; newRemoveRequest (H := iotaWire) "d"] srv_fs_d
  = ((ApplyRequest (H := iotaWire) srv (newRemoveRequest (H := iotaWire) "d") srv_fs_d).1.1,
     [okResponse (H := iotaWire); okResponse (H := iotaWire)]).
Proof.
  apply (ApplyRequest_Remove_twice (H := iotaWire) srv
           (newRemoveRequest (H := iotaWire) "d") srv_fs_d).
  - reflexivity.
  - reflexivity.
  - vm_compute. discriminate.
Defined.

Lemma ApplyRequest_confined_witness :
  below (os.resolve (Server_path srv)) (target srv (putFile (H := iotaWire) "d/f" ["y"%byte]))
  ∧ ∀ p, ¬ below (os.resolve (Server_path srv)) p →
         os.stat (<[["srv"; "d"; "f"] := os.File ["y"%byte]]> srv_fs_d) p = os.stat srv_fs_d p.
Proof.
  apply (ApplyRequest_confined (H := iotaWire) srv
           (putFile (H := iotaWire) "d/f" ["y"%byte]) srv_fs_d
           (<[["srv"; "d"; "f"] := os.File ["y"%byte]]> srv_fs_d)
           (okResponse (H := iotaWire)) None).
  - reflexivity.
  - reflexivity.
  - vm_compute. discriminate.
  - discriminate.
  - discriminate.
  - reflexivity.
Defined.

Lemma entry_name_x : entry_name "x".
Proof. by repeat split. Qed.

Lemma ApplyRequest_dotdot_escapes_witness :
  validateRequest srv (putFile (H := iotaWire) "../x" ["y"%byte]) = None
  ∧ ¬ os.resolve (Server_path srv) `prefix_of` target srv (putFile (H := iotaWire) "../x" ["y"%byte])
  ∧ ApplyRequest (H := iotaWire) srv (putFile (H := iotaWire) "../x" ["y"%byte]) srv_fs
    = (<[[] ++ ["x"] := os.File ["y"%byte]]> srv_fs, okResponse (H := iotaWire), None).
Proof.
  apply (ApplyRequest_dotdot_escapes (H := iotaWire) srv
           (putFile (H := iotaWire) "../x" ["y"%byte]) srv_fs [] "srv" "x").
  - reflexivity.
  - reflexivity.
  - apply entry_name_x.
  - discriminate.
  - reflexivity.
  - reflexivity.
  - reflexivity.
  - vm_compute. discriminate.
Defined.

Lemma applyAll_no_orphans_witness :
  os.stat (applyAll (H := iotaWire) srv
             [newMkdirRequest (H := iotaWire) "d"; putFile (H := iotaWire) "d/f" ["x"%byte]]
             srv_fs).1 ["srv"; "d"]
  = Some os.Dir.
Proof.
  apply (applyAll_no_orphans (H := iotaWire) srv
           [newMkdirRequest (H := iotaWire) "d"; putFile (H := iotaWire) "d/f" ["x"%byte]]
           srv_fs ["srv"; "d"] ["f"] (os.File ["x"%byte])).
  - apply srv_fs_wf.
  - reflexivity.
  - discriminate.
Defined.

Lemma test_listing_ok : listing test_listing.
Proof.
  split; [|split].
  - repeat constructor; done.
  - apply (bool_decide_unpack _). by vm_compute.
  - intros i entry Hi.
    do 5 (destruct i as [|i]; [injection Hi as <-; simpl; first [by left|right]|]).
    + exists 3%nat. split; [lia|done].
    + done.
Qed.

Lemma applyAll_replays_listing_witness :
  ∃ fs',
    applyAll (H := iotaWire) srv (request_of (H := iotaWire) <$> test_listing) srv_fs
    = (fs', replicate (length test_listing) (okResponse (H := iotaWire)))
    ∧ (∀ names node, names ≠ [] →
         fs' !! (os.resolve (Server_path srv) ++ names) = Some node
         ↔ (names, node) ∈ test_listing)
    ∧ (∀ p, ¬ below (os.resolve (Server_path srv)) p → os.stat fs' p = os.stat srv_fs p).
Proof.
  apply (applyAll_replays_listing (H := iotaWire) srv srv_fs test_listing).
  - reflexivity.
  - apply srv_fs_empty_dir.
  - apply test_listing_ok.
Defined.

Lemma sendRequests_stops_at_first_error_witness :
  ∃ st' resp,
    sendRequests (H := iotaWire) (World0 := simWorld (H := iotaWire)) box
      ([newMkdirRequest (H := iotaWire) "d"]
         ++ newMkdirRequest (H := iotaWire) "d" :: [putFile (H := iotaWire) "d/f" []])
      (start (flat_world 0 [] (Some 10%nat)))
    = (Some (errorString ("Sending request to server '"
                            +:+ Request_String (Wire := iotaWire)
                                  (newMkdirRequest (H := iotaWire) "d")
                            +:+ "' failed: " +:+ Response_String (Wire := iotaWire) resp)),
       st')
    ∧ Response_Type resp = responseErr (Wire := iotaWire)
    ∧ log st' = [] ++ Connect true
                  :: (Sent <$> [newMkdirRequest (H := iotaWire) "d"]
                                 ++ [newMkdirRequest (H := iotaWire) "d"]) ++ [Close].
Proof.
  apply (sendRequests_stops_at_first_error (H := iotaWire)
           (World0 := simWorld (H := iotaWire)) box
           [newMkdirRequest (H := iotaWire) "d"] (newMkdirRequest (H := iotaWire) "d")
           [putFile (H := iotaWire) "d/f" []]
           (start (flat_world 0 [] (Some 10%nat))) (flat_world 0 [] (Some 10%nat))).
  - reflexivity.
  - split.
    + vm_compute. discriminate.
    + reflexivity.
Defined.




Lemma chmod_f_chmod_only :
  chmod_only (World0 := simWorld (H := iotaWire)) box chmod_f.
Proof. repeat split. by exists "f". Qed.

Lemma watcherLoop_quiet_witness :
  watcherLoop (H := iotaWire) (World0 := simWorld (H := iotaWire)) box
    [Timeout; RecvEvent (Some chmod_f); Timeout] [] (start dead_link)
  = (Waiting [], start dead_link).
Proof.
  apply (watcherLoop_quiet (H := iotaWire) (World0 := simWorld (H := iotaWire)) box
           [Timeout; RecvEvent (Some chmod_f); Timeout] (start dead_link)).
  repeat constructor. apply chmod_f_chmod_only.
Defined.

Lemma removed_f_removal :
  removal (H := iotaWire) (World0 := simWorld (H := iotaWire)) box removed_f
    (newRemoveRequest (H := iotaWire) "f").
Proof. split; [done|]. split; [by left|]. by exists "f". Qed.

Lemma renamed_f_removal :
  removal (H := iotaWire) (World0 := simWorld (H := iotaWire)) box renamed_f
    (newRemoveRequest (H := iotaWire) "f").
Proof. split; [done|]. split; [by right|]. by exists "f". Qed.

Lemma watcherLoop_flushes_on_timer_witness :
  watcherLoop (H := iotaWire) (World0 := simWorld (H := iotaWire)) box
    ((RecvEvent ∘ Some <$> [removed_f; renamed_f]) ++ Timeout :: []) []
    (start (flat_world 0 [] (Some 10%nat)))
  = match sendRequests (H := iotaWire) (World0 := simWorld (H := iotaWire)) box
            [newRemoveRequest (H := iotaWire) "f"; newRemoveRequest (H := iotaWire) "f"]
            (start (flat_world 0 [] (Some 10%nat))) with
    | (Some err, st') => (Returned (Some err), st')
    | (None, st') =>
        watcherLoop (H := iotaWire) (World0 := simWorld (H := iotaWire)) box [] [] st'
    end.
Proof.
  apply (watcherLoop_flushes_on_timer (H := iotaWire) (World0 := simWorld (H := iotaWire))
           box [removed_f; renamed_f]
           [newRemoveRequest (H := iotaWire) "f"; newRemoveRequest (H := iotaWire) "f"]
           [] (start (flat_world 0 [] (Some 10%nat)))).
  - repeat constructor; [apply removed_f_removal|apply renamed_f_removal].
  - unfold requestsBufferSize. simpl. lia.
Defined.

Lemma watcherLoop_flushes_when_full_witness :
  watcherLoop (H := iotaWire) (World0 := simWorld (H := iotaWire)) box
    ((RecvEvent ∘ Some <$> replicate 100 removed_f) ++ [Timeout]) []
    (start (flat_world 0 [] (Some 1000%nat)))
  = match sendRequests (H := iotaWire) (World0 := simWorld (H := iotaWire)) box
            (replicate 100 (newRemoveRequest (H := iotaWire) "f"))
            (start (flat_world 0 [] (Some 1000%nat))) with
    | (Some err, st') => (Returned (Some err), st')
    | (None, st') =>
        watcherLoop (H := iotaWire) (World0 := simWorld (H := iotaWire)) box [Timeout] [] st'
    end.
Proof.
  apply (watcherLoop_flushes_when_full (H := iotaWire) (World0 := simWorld (H := iotaWire))
           box (replicate 100 removed_f)
           (replicate 100 (newRemoveRequest (H := iotaWire) "f"))
           [Timeout] (start (flat_world 0 [] (Some 1000%nat)))).
  - apply Forall2_replicate, removed_f_removal.
  - reflexivity.
Defined.

Lemma watcherLoop_stops_on_unknown_event_witness :
  handleEvent (H := iotaWire) (World0 := simWorld (H := iotaWire)) box odd_f
    (start dead_link)
  = ((None, Some (errorString "Erroneous event value (32): /home/u/box/f")), start dead_link)
  ∧ watcherLoop (H := iotaWire) (World0 := simWorld (H := iotaWire)) box
      (RecvEvent (Some odd_f) :: [Timeout]) [newRemoveRequest (H := iotaWire) "f"]
      (start dead_link)
    = (Returned (Some (withMessage (errorString "Erroneous event value (32): /home/u/box/f")
                         "Handling file event failed")),
       start dead_link).
Proof.
  apply (watcherLoop_stops_on_unknown_event (H := iotaWire)
           (World0 := simWorld (H := iotaWire)) box odd_f "f" [Timeout]
           [newRemoveRequest (H := iotaWire) "f"] (start dead_link)).
  - reflexivity.
  - repeat split.
Defined.

Lemma recursiveAddWatchers_watches_directories_witness :
  recursiveAddWatchers (World0 := watchWorld (H := iotaWire) nested_tree)
    box "/home/u/box" (start 1%nat)
  = (Some (errorString "no space left on device"), start 0%nat).
Proof.
  apply (recursiveAddWatchers_watches_directories
           (World0 := watchWorld (H := iotaWire) nested_tree)
           box "/home/u/box" (start 1%nat) nested_tree 1%nat).
  - reflexivity.
  - repeat constructor.
Defined.

Lemma handleEvent_created_directory_witness :
  handleEvent (H := iotaWire) (World0 := simWorld (H := iotaWire)) box created_sub
    (start nested_world)
  = ((Some (newMkdirRequest (H := iotaWire) "sub"), None), start nested_world).
Proof.
  apply (handleEvent_created_directory (H := iotaWire) (World0 := simWorld (H := iotaWire))
           box created_sub "sub" (start nested_world) nested_world nested_tree nested_world).
  - reflexivity.
  - reflexivity.
  - reflexivity.
  - reflexivity.
  - repeat constructor.
Defined.

Lemma SyncAndMonitor_watcher_failure_witness :
  SyncAndMonitor (H := iotaWire) (World0 := watchWorld (H := iotaWire) nested_tree)
    box [Timeout] (start 1%nat)
  = (Returned (Some (withMessage (errorString "no space left on device")
                       "Monitoring directory '/home/u/box' failed")),
     start 0%nat).
Proof.
  apply (SyncAndMonitor_watcher_failure (H := iotaWire)
           (World0 := watchWorld (H := iotaWire) nested_tree)
           box [Timeout] (start 1%nat) 1%nat nested_tree 1%nat
           (errorString "no space left on device") 0%nat).
  - reflexivity.
  - reflexivity.
  - repeat constructor.
  - reflexivity.
Defined.

Lemma NewClient_gives_client_witness :
  Client_server box = JoinHostPort "localhost" (pretty 12345)
  ∧ filepath.rooted (Client_path box) = true
  ∧ filepath.Clean (Client_path box) = Client_path box
  ∧ os.resolve (Client_path box) = os.resolve "/home/u/box"
  ∧ ∃ w1 w2 cert,
      Stat (World := simWorld (H := iotaWire)) "/home/u/box" (world (start cert_world))
      = (inr true, w1)
      ∧ (λ (_ : string) (w : Sim), (@None error, w)) (Client_server box) w1 = (None, w2)
      ∧ ReadFile (World := simWorld (H := iotaWire)) "./certs/server.cert" w2
        = (inr cert, world (start cert_world)).
Proof.
  apply (NewClient_gives_client (World0 := simWorld (H := iotaWire)) (λ _ w, (None, w))
           "localhost" 12345 "/home/u/box" (start cert_world) box (start cert_world)).
  reflexivity.
Defined.

Lemma client_run_monitoring_witness :
  "/home/u/box" ≠ "" ∧ "localhost" ≠ "" ∧ (1 ≤ 12345 ≤ 65535)%Z
  ∧ (∃ w1, Stat (World := simWorld (H := iotaWire)) "/home/u/box" (world (start cert_world))
           = (inr true, w1))
  ∧ Client_server box = JoinHostPort "localhost" (pretty 12345)
  ∧ filepath.rooted (Client_path box) = true
  ∧ os.resolve (Client_path box) = os.resolve "/home/u/box".
Proof.
  apply (client_run_monitoring (World0 := simWorld (H := iotaWire)) (λ _ w, (None, w))
           "/home/u/box" "localhost" 12345 (start cert_world) box (start cert_world)).
  reflexivity.
Defined.
